(** * dd-trace-cpp: MessagePack writer, agent URL parser and span handle

    A shallow embedding of [src/msgpack.h], [src/datadog/http_client.cpp] and
    [src/datadog/span.cpp], with the properties their specification states.

    Conventions.  A C++ integer of width [w] is a [Z] with the wrap-around of
    each conversion written out.  A [char] of a binary buffer is the [Z] in
    [0, 256) of its bit pattern, a buffer is the list of its chars.  Text
    (error messages, URLs, tag names) is a [string]. *)

From Stdlib Require Import ZArith Lia List Bool Ascii String DecimalString DecimalN.
From stdpp Require Import base option gmap strings list.
Import ListNotations.

#[local] Open Scope Z_scope.

(** Let [simpl] and [cbn] compute the append of a text that starts with a
    known char. *)
#[local] Arguments String.append !_ _ / : simpl nomatch.

(* ===================================================================== *)
(** * Text: how the specification speaks about strings *)
(* ===================================================================== *)

Module Text.

(** [needle] occurs in [s]. *)
Definition contains (needle s : string) : Prop :=
  exists before after, s = String.append before (String.append needle after).

(** [s] begins with [prefix]. *)
Definition begins_with (prefix s : string) : Prop :=
  exists after, s = String.append prefix after.

(** [c] is a decimal digit. *)
Definition digit (c : ascii) : Prop :=
  exists k : N, (k < 10)%N /\ c = ascii_of_N (48 + k).

(** [s] ends with [suffix]. *)
Definition ends_with (suffix s : string) : Prop :=
  exists before, s = String.append before suffix.

End Text.

(* ===================================================================== *)
(** * The MessagePack writer ([src/msgpack.h]) *)
(* ===================================================================== *)

Module Msgpack.

(** A growing [std::string] of raw bytes. *)
Definition Buffer := list Z.

(** [enum pack_type : std::uint8_t]. *)
Definition FIX_MAP : Z := 0x80.
Definition FIX_ARRAY : Z := 0x90.
Definition FIX_STR : Z := 0xA0.
Definition NIL : Z := 0xC0.
Definition FALSE : Z := 0xC2.
Definition TRUE : Z := 0xC3.
Definition BIN8 : Z := 0xC4.
Definition BIN16 : Z := 0xC5.
Definition BIN32 : Z := 0xC6.
Definition DOUBLE : Z := 0xCB.
Definition UINT8 : Z := 0xCC.
Definition UINT16 : Z := 0xCD.
Definition UINT32 : Z := 0xCE.
Definition UINT64 : Z := 0xCF.
Definition INT8 : Z := 0xD0.
Definition INT16 : Z := 0xD1.
Definition INT32 : Z := 0xD2.
Definition INT64 : Z := 0xD3.
Definition STR8 : Z := 0xD9.
Definition STR16 : Z := 0xDA.
Definition STR32 : Z := 0xDB.
Definition ARRAY16 : Z := 0xDC.
Definition ARRAY32 : Z := 0xDD.
Definition MAP16 : Z := 0xDE.
Definition MAP32 : Z := 0xDF.
Definition NEGATIVE_FIXNUM : Z := 0xE0.

(** [std::numeric_limits<T>::min()] and [::max()] of the fixed-width types. *)
Definition int_min (bits : Z) : Z := - 2 ^ (bits - 1).
Definition uint_max (bits : Z) : Z := 2 ^ bits - 1.

(** [static_cast] to an unsigned, respectively signed, type of [bits] bits. *)
Definition cast_unsigned (bits : Z) (x : Z) : Z := x mod 2 ^ bits.
Definition cast_signed (bits : Z) (x : Z) : Z :=
  (x + 2 ^ (bits - 1)) mod 2 ^ bits - 2 ^ (bits - 1).

(** [static_cast<char>], and the conversion of [push_back]'s argument to
    [char]: the low eight bits. *)
Definition to_char (x : Z) : Z := cast_unsigned 8 x.

Definition push_back (buffer : Buffer) (c : Z) : Buffer := buffer ++ [to_char c].

(** [push_number_big_endian] for an [Integer] of [size] bytes.  [value] is the
    argument converted to [std::make_unsigned_t<Integer>]; the loop runs [i]
    over [0 .. size - 1] and stores
    [(value >> (8 * ((size - 1) - i))) & 0xFF] at [buf[i]]; [buf] is then
    appended. *)
Definition push_number_big_endian (size : nat) (buffer : Buffer) (integer : Z)
  : Buffer :=
  let value := cast_unsigned (8 * Z.of_nat size) integer in
  let buf :=
    map (fun i : nat =>
           to_char (Z.land (Z.shiftr value
                              (8 * ((Z.of_nat size - 1) - Z.of_nat i))) 0xFF))
        (seq 0 size) in
  buffer ++ buf.

(** [push]: append a range of chars. *)
Definition push (buffer : Buffer) (range : list Z) : Buffer := buffer ++ range.

Definition pack_nil (buffer : Buffer) : Buffer := push_back buffer NIL.

(** [pack_negative(buffer, std::int64_t value)]. *)
Definition pack_negative (buffer : Buffer) (value : Z) : Buffer :=
  if -32 <=? value then
    push_back buffer (Z.lor NEGATIVE_FIXNUM (cast_unsigned 8 (value + 32)))
  else if int_min 8 <=? value then
    push_back (push_back buffer INT8) value
  else if int_min 16 <=? value then
    push_number_big_endian 2 (push_back buffer INT16) (cast_signed 16 value)
  else if int_min 32 <=? value then
    push_number_big_endian 4 (push_back buffer INT32) (cast_signed 32 value)
  else if int_min 64 <=? value then
    push_number_big_endian 8 (push_back buffer INT64) (cast_signed 64 value)
  else buffer.

(** [pack_nonnegative(buffer, std::uint64_t value)]. *)
Definition pack_nonnegative (buffer : Buffer) (value : Z) : Buffer :=
  if value <=? 0x7F then
    push_back buffer (cast_unsigned 8 value)
  else if value <=? uint_max 8 then
    push_back (push_back buffer UINT8) (cast_unsigned 8 value)
  else if value <=? uint_max 16 then
    push_number_big_endian 2 (push_back buffer UINT16) (cast_unsigned 16 value)
  else if value <=? uint_max 32 then
    push_number_big_endian 4 (push_back buffer UINT32) (cast_unsigned 32 value)
  else if value <=? uint_max 64 then
    push_number_big_endian 8 (push_back buffer UINT64) (cast_unsigned 64 value)
  else buffer.

(** [pack_integer(buffer, T value)]: the argument reaches [pack_negative]
    converted to [std::int64_t] and [pack_nonnegative] converted to
    [std::uint64_t]. *)
Definition pack_integer (buffer : Buffer) (value : Z) : Buffer :=
  if value <? 0 then pack_negative buffer (cast_signed 64 value)
  else pack_nonnegative buffer (cast_unsigned 64 value).

Definition pack_bool (buffer : Buffer) (value : bool) : Buffer :=
  if value then push_back buffer TRUE else push_back buffer FALSE.

(** ** Overflow errors *)

(** [std::to_string] of a [std::size_t]: its decimal digits. *)
Definition to_string (n : Z) : string :=
  NilEmpty.string_of_uint (N.to_uint (Z.to_N n)).

(** The [char] a [std::size_t] converts to when it is passed where a [char]
    is expected: the low eight bits. *)
Definition size_to_char (n : Z) : ascii := ascii_of_N (Z.to_N (cast_unsigned 8 n)).

(** [make_overflow_message(type, actual, max)].  Each [message += x] of the
    source is one [append]; [message += max] has a [std::size_t] operand, for
    which [std::string::operator+=] only has the [char] overload, so it
    appends the single char [max] converts to. *)
Definition make_overflow_message (type : string) (actual max : Z) : string :=
  let message := EmptyString in
  let message := String.append message "Cannot msgpack encode " in
  let message := String.append message type in
  let message := String.append message " of size " in
  let message := String.append message (to_string actual) in
  let message :=
    String.append message ", which exceeds the protocol maximum of " in
  let message := String.append message (String (size_to_char max) EmptyString) in
  let message := String.append message (String "."%char EmptyString) in
  message.

(** How a call ends: it returns, or it throws [std::out_of_range(what)]. *)
Inductive completion :=
| Returns
| Throws_out_of_range (what : string).

(** The buffer is passed by reference: a call leaves it in some state however
    it ends. *)
Definition packed : Type := Buffer * completion.

(** [pack_str(buffer, range)]; [size] is the distance from [std::begin] to
    [std::end]. *)
Definition pack_str (buffer : Buffer) (range : list Z) : packed :=
  let size := Z.of_nat (length range) in
  if size <? 32 then
    let buffer := push_back buffer (Z.lor FIX_STR (cast_unsigned 8 size)) in
    (push buffer range, Returns)
  else if size <=? uint_max 8 then
    let buffer := push_back buffer STR8 in
    let buffer := push_back buffer (cast_unsigned 8 size) in
    (push buffer range, Returns)
  else if size <=? uint_max 16 then
    let buffer := push_back buffer STR16 in
    let buffer := push_number_big_endian 2 buffer (cast_unsigned 16 size) in
    (push buffer range, Returns)
  else if size <=? uint_max 32 then
    let buffer := push_back buffer STR32 in
    let buffer := push_number_big_endian 4 buffer (cast_unsigned 32 size) in
    (push buffer range, Returns)
  else
    (buffer,
     Throws_out_of_range (make_overflow_message "string" size (uint_max 32))).

(** [pack_bin(buffer, range)]. *)
Definition pack_bin (buffer : Buffer) (range : list Z) : packed :=
  let size := Z.of_nat (length range) in
  if size <=? uint_max 8 then
    let buffer := push_back buffer BIN8 in
    let buffer := push_back buffer (cast_unsigned 8 size) in
    (push buffer range, Returns)
  else if size <=? uint_max 16 then
    let buffer := push_back buffer BIN16 in
    let buffer := push_number_big_endian 2 buffer (cast_unsigned 16 size) in
    (push buffer range, Returns)
  else if size <=? uint_max 32 then
    let buffer := push_back buffer BIN32 in
    let buffer := push_number_big_endian 4 buffer (cast_unsigned 32 size) in
    (push buffer range, Returns)
  else
    (buffer,
     Throws_out_of_range (make_overflow_message "binary" size (uint_max 32))).

(** [pack_array(buffer, size)]. *)
Definition pack_array (buffer : Buffer) (size : Z) : packed :=
  if size <=? 15 then
    (push_back buffer (Z.lor FIX_ARRAY (cast_unsigned 8 size)), Returns)
  else if size <=? uint_max 16 then
    let buffer := push_back buffer ARRAY16 in
    (push_number_big_endian 2 buffer (cast_unsigned 16 size), Returns)
  else if size <=? uint_max 32 then
    let buffer := push_back buffer ARRAY32 in
    (push_number_big_endian 4 buffer (cast_unsigned 32 size), Returns)
  else
    (buffer,
     Throws_out_of_range (make_overflow_message "array" size (uint_max 32))).

(** [pack_map(buffer, size)]. *)
Definition pack_map (buffer : Buffer) (size : Z) : packed :=
  if size <=? 15 then
    (push_back buffer (Z.lor FIX_MAP (cast_unsigned 8 size)), Returns)
  else if size <=? uint_max 16 then
    let buffer := push_back buffer MAP16 in
    (push_number_big_endian 2 buffer (cast_unsigned 16 size), Returns)
  else if size <=? uint_max 32 then
    let buffer := push_back buffer MAP32 in
    (push_number_big_endian 4 buffer (cast_unsigned 32 size), Returns)
  else
    (buffer,
     Throws_out_of_range (make_overflow_message "map" size (uint_max 32))).

(** A call threw. *)
Definition throws (r : packed) : Prop :=
  exists what, snd r = Throws_out_of_range what.

(** ** The decision table of the specification *)

(** The definitions of this part follow the words of the specification, not
    the source; [MsgpackFacts] compares them with the functions above. *)

(** Big-endian payload of [n] bytes: most significant byte first, two's
    complement for a negative number. *)
Fixpoint big_endian (n : nat) (x : Z) : list Z :=
  match n with
  | O => []
  | S k => big_endian k (x / 256) ++ [x mod 256]
  end.

(** The number a big-endian payload denotes, read as unsigned. *)
Definition big_endian_value (bytes : list Z) : Z :=
  fold_left (fun acc b => 256 * acc + b) bytes 0.

(** The integer encoding decision table of the specification, line by
    line: negative fixnum, INT8/16/32/64 by the first minimum that is at most
    [v], positive fixnum, UINT8/16/32/64 by the first maximum that is at
    least [v]. *)
Definition integer_encoding (v : Z) : list Z :=
  if v <? 0 then
    if -32 <=? v then [Z.lor 0xE0 (v + 32)]
    else if - 2 ^ 7 <=? v then 0xD0 :: big_endian 1 v
    else if - 2 ^ 15 <=? v then 0xD1 :: big_endian 2 v
    else if - 2 ^ 31 <=? v then 0xD2 :: big_endian 4 v
    else 0xD3 :: big_endian 8 v
  else
    if v <=? 0x7F then [v]
    else if v <=? 2 ^ 8 - 1 then 0xCC :: big_endian 1 v
    else if v <=? 2 ^ 16 - 1 then 0xCD :: big_endian 2 v
    else if v <=? 2 ^ 32 - 1 then 0xCE :: big_endian 4 v
    else 0xCF :: big_endian 8 v.

(** ** The rest of the writer, and readers for what it writes *)

(** [pack_double(buffer, value)].  The source reads the [double] back as the
    [std::uint64_t] that shares its memory (a union); [as_integer] is that
    integer.  The word swap for ARM OABI targets is not compiled in. *)
Definition pack_double (buffer : Buffer) (as_integer : Z) : Buffer :=
  let buffer := push_back buffer DOUBLE in
  push_number_big_endian 8 buffer (cast_unsigned 64 as_integer).

(** The readers below are not part of the source: they follow the MessagePack
    format and serve to state that what the writer appends can be read
    back. *)

(** The first [n] bytes read as a big-endian unsigned number, and the rest. *)
Definition read_big_endian (n : nat) (bytes : list Z) : option (Z * list Z) :=
  if (length bytes <? n)%nat then None
  else Some (big_endian_value (firstn n bytes), skipn n bytes).

(** The same read as a two's complement number of [n] bytes. *)
Definition read_big_endian_signed (n : nat) (bytes : list Z)
  : option (Z * list Z) :=
  match read_big_endian n bytes with
  | Some (x, rest) =>
      Some (if x <? 2 ^ (8 * Z.of_nat n - 1) then x
            else x - 2 ^ (8 * Z.of_nat n), rest)
  | None => None
  end.

(** A reader for integers. *)
Definition unpack_integer (bytes : list Z) : option (Z * list Z) :=
  match bytes with
  | [] => None
  | b :: rest =>
      if (0 <=? b) && (b <=? 0x7F) then Some (b, rest)
      else if (0xE0 <=? b) && (b <=? 0xFF) then Some (b - 256, rest)
      else if b =? 0xCC then read_big_endian 1 rest
      else if b =? 0xCD then read_big_endian 2 rest
      else if b =? 0xCE then read_big_endian 4 rest
      else if b =? 0xCF then read_big_endian 8 rest
      else if b =? 0xD0 then read_big_endian_signed 1 rest
      else if b =? 0xD1 then read_big_endian_signed 2 rest
      else if b =? 0xD2 then read_big_endian_signed 4 rest
      else if b =? 0xD3 then read_big_endian_signed 8 rest
      else None
  end.

(** The number of bytes of an integer's encoding, by its range. *)
Definition integer_encoding_length (v : Z) : nat :=
  if (-32 <=? v) && (v <=? 0x7F) then 1
  else if (- 2 ^ 7 <=? v) && (v <=? 2 ^ 8 - 1) then 2
  else if (- 2 ^ 15 <=? v) && (v <=? 2 ^ 16 - 1) then 3
  else if (- 2 ^ 31 <=? v) && (v <=? 2 ^ 32 - 1) then 5
  else 9.

(** The first [size] elements and the rest, if there are that many. *)
Definition read_chars (size : Z) (bytes : list Z) : option (list Z * list Z) :=
  if Z.of_nat (length bytes) <? size then None
  else Some (firstn (Z.to_nat size) bytes, skipn (Z.to_nat size) bytes).

(** A reader for a size that follows a prefix byte: [fixed] is the prefix of
    the sizes held in the prefix byte itself, up to [fixed_max]; [p8], [p16],
    [p32] are the prefixes followed by 1, 2 and 4 bytes ([p8 = -1] when the
    kind has no one-byte size). *)
Definition unpack_size (fixed fixed_max p8 p16 p32 : Z) (bytes : list Z)
  : option (Z * list Z) :=
  match bytes with
  | [] => None
  | b :: rest =>
      if (fixed <=? b) && (b <=? fixed + fixed_max) then Some (b - fixed, rest)
      else if b =? p8 then read_big_endian 1 rest
      else if b =? p16 then read_big_endian 2 rest
      else if b =? p32 then read_big_endian 4 rest
      else None
  end.

Definition unpack_array (bytes : list Z) : option (Z * list Z) :=
  unpack_size 0x90 15 (-1) 0xDC 0xDD bytes.
Definition unpack_map (bytes : list Z) : option (Z * list Z) :=
  unpack_size 0x80 15 (-1) 0xDE 0xDF bytes.
Definition unpack_str (bytes : list Z) : option (list Z * list Z) :=
  match unpack_size 0xA0 31 0xD9 0xDA 0xDB bytes with
  | Some (size, rest) => read_chars size rest
  | None => None
  end.
Definition unpack_bin (bytes : list Z) : option (list Z * list Z) :=
  match bytes with
  | [] => None
  | b :: rest =>
      match (if b =? 0xC4 then read_big_endian 1 rest
             else if b =? 0xC5 then read_big_endian 2 rest
             else if b =? 0xC6 then read_big_endian 4 rest
             else None) with
      | Some (size, rest) => read_chars size rest
      | None => None
      end
  end.

(** The kinds of value the writer packs, and the kind a first byte announces
    in the MessagePack format (for the bytes this writer uses). *)
Inductive kind :=
| KNil | KBool | KInteger | KDouble | KStr | KBin | KArray | KMap.

Definition kind_of_byte (b : Z) : option kind :=
  if (0 <=? b) && (b <=? 0x7F) then Some KInteger
  else if (0x80 <=? b) && (b <=? 0x8F) then Some KMap
  else if (0x90 <=? b) && (b <=? 0x9F) then Some KArray
  else if (0xA0 <=? b) && (b <=? 0xBF) then Some KStr
  else if b =? 0xC0 then Some KNil
  else if (0xC2 <=? b) && (b <=? 0xC3) then Some KBool
  else if (0xC4 <=? b) && (b <=? 0xC6) then Some KBin
  else if b =? 0xCB then Some KDouble
  else if (0xCC <=? b) && (b <=? 0xD3) then Some KInteger
  else if (0xD9 <=? b) && (b <=? 0xDB) then Some KStr
  else if (0xDC <=? b) && (b <=? 0xDD) then Some KArray
  else if (0xDE <=? b) && (b <=? 0xDF) then Some KMap
  else if (0xE0 <=? b) && (b <=? 0xFF) then Some KInteger
  else None.

(** The kind announced by the first byte of a text of bytes. *)
Definition first_kind (bytes : list Z) : option kind :=
  match bytes with
  | [] => None
  | b :: _ => kind_of_byte b
  end.

End Msgpack.

(* ===================================================================== *)
(** * The agent URL parser ([src/datadog/http_client.cpp]) *)
(* ===================================================================== *)

Module HTTPClient.

#[local] Open Scope nat_scope.
#[local] Open Scope string_scope.

(** The error codes [HTTPClient::URL::parse] returns. *)
Inductive Code :=
| URL_MISSING_SEPARATOR
| URL_UNSUPPORTED_SCHEME
| URL_UNIX_DOMAIN_SOCKET_PATH_NOT_ABSOLUTE.

(** [struct Error { Code code; std::string message; }]. *)
Record Error := { code : Code; message : string }.

(** [struct HTTPClient::URL]. *)
Record URL := { scheme : string; authority : string; path : string }.

(** [Expected<T>]: a value or an [Error]. *)
Inductive Expected (T : Type) :=
| Value (value : T)
| Failure (error : Error).
Arguments Value {T} value.
Arguments Failure {T} error.

(** Iterators into a text are offsets from its [begin()]; [end()] is the
    length of the text. *)

(** [std::search(first, last, s_first, s_last)]: the offset of the first
    occurrence of [needle] in [haystack], the offset of [last] when there is
    none. *)
Fixpoint search (haystack needle : string) : nat :=
  if String.prefix needle haystack then 0
  else match haystack with
       | EmptyString => 0
       | String _ rest => S (search rest needle)
       end.

(** [std::find(first, last, value)] on an array of texts: the offset of the
    first element equal to [value], the offset of [last] when there is none. *)
Fixpoint find (elements : list string) (value : string) : nat :=
  match elements with
  | [] => 0
  | element :: rest =>
      if String.eqb element value then 0 else S (find rest value)
  end.

(** [std::find(first, last, value)] on the chars of a text. *)
Fixpoint find_char (text : string) (value : ascii) : nat :=
  match text with
  | EmptyString => 0
  | String c rest =>
      if Ascii.eqb c value then 0 else S (find_char rest value)
  end.

(** [range(begin, end)] of [string_util.h]: the text between two iterators. *)
Definition range (text : string) (begin_ end_ : nat) : string :=
  String.substring begin_ (end_ - begin_) text.

(** [append(message, text)] of [string_util.h]. *)
Definition append (message text : string) : string := String.append message text.

(** The double quote of the messages. *)
Definition dq : string := String "034"%char EmptyString.

Definition supported : list string :=
  ["http"; "https"; "unix"; "http+unix"; "https+unix"].

(** [Expected<HTTPClient::URL> HTTPClient::URL::parse(StringView input)]. *)
Definition parse (input : string) : Expected URL :=
  let separator := "://" in
  let after_scheme := search input separator in
  if Nat.eqb after_scheme (String.length input) then
    let message := EmptyString in
    let message :=
      append message
        ("Datadog Agent URL is missing the " +:+ dq +:+ "://" +:+ dq
         +:+ " separator: " +:+ dq) in
    let message := append message input in
    let message := append message dq in
    Failure {| code := URL_MISSING_SEPARATOR; message := message |}
  else
    let scheme := range input 0 after_scheme in
    let found := find supported scheme in
    if Nat.eqb found (List.length supported) then
      let message := EmptyString in
      let message := append message ("Unsupported URI scheme " +:+ dq) in
      let message := append message scheme in
      let message :=
        append message (dq +:+ " in Datadog Agent URL " +:+ dq) in
      let message := append message input in
      let message :=
        append message (dq +:+ ". The following are supported:") in
      let message :=
        fold_left (fun message supported_scheme =>
                     append (append message " ") supported_scheme)
                  supported message in
      Failure {| code := URL_UNSUPPORTED_SCHEME; message := message |}
    else
      let authority_and_path :=
        range input (after_scheme + String.length separator)
              (String.length input) in
      if String.eqb scheme "unix" || String.eqb scheme "http+unix"
         || String.eqb scheme "https+unix" then
        if Nat.eqb (String.length authority_and_path) 0
           || negb (match String.get 0 authority_and_path with
                    | Some c => Ascii.eqb c "/"
                    | None => false
                    end) then
          let message := EmptyString in
          let message :=
            append message
              ("Unix domain socket paths for Datadog Agent must be absolute, i.e. "
               +:+ "must begin with a "
               +:+ dq +:+ "/" +:+ dq +:+ ". The path " +:+ dq) in
          let message := append message authority_and_path in
          let message :=
            append message
              (dq +:+ " is not absolute. Error occurred for URL: " +:+ dq) in
          let message := append message input in
          let message := append message dq in
          Failure {| code := URL_UNIX_DOMAIN_SOCKET_PATH_NOT_ABSOLUTE;
                     message := message |}
        else
          Value {| scheme := scheme; authority := authority_and_path;
                   path := EmptyString |}
      else
        let after_authority := find_char authority_and_path "/" in
        Value {| scheme := scheme;
                 authority := range authority_and_path 0 after_authority;
                 path := range authority_and_path after_authority
                               (String.length authority_and_path) |}.

(** The call fails with the given code. *)
Definition fails_with (c : Code) (r : Expected URL) : Prop :=
  exists message, r = Failure {| code := c; message := message |}.

(** [scheme] is the text before the first ["://"] of [input] and [rest] is
    the text after it. *)
Definition splits_at_first_separator (input scheme rest : string) : Prop :=
  input = String.append scheme (String.append "://" rest)
  /\ forall before after,
      input = String.append before (String.append "://" after) ->
      String.length scheme <= String.length before.

End HTTPClient.

(* ===================================================================== *)
(** * The span handle ([src/datadog/span.cpp]) *)
(* ===================================================================== *)

Module Tracing.

(** ** Data *)

(** [struct TimePoint]: a wall time and a tick of the steady clock, both in
    nanoseconds.  A [Duration] is a number of nanoseconds. *)
Record TimePoint := { wall : Z; tick : Z }.

(** Modelled from the spec: [operator-] on two [TimePoint]s, declared in
    [clock.h], which is not part of the sources at hand; the specification
    has [duration = clock().tick - start.tick]. *)
Definition TimePoint_minus (after before : TimePoint) : Z :=
  tick after - tick before.

(** Modelled from the spec: [struct SpanData], declared in [span_data.h],
    which is not part of the sources at hand.  The fields are those of the
    specification's data model; a [double] is the [Z] of its bit pattern. *)
Record SpanData := {
  service : string;
  service_type : string;
  name : string;
  resource : string;
  origin : option string;
  trace_id : Z;
  span_id : Z;
  parent_id : Z;
  start : TimePoint;
  duration : Z;
  error : bool;
  tags : gmap string string;
  numeric_tags : gmap string Z;
}.

(** A value-initialised [SpanData], as [std::make_unique<SpanData>()] makes. *)
Definition SpanData_new : SpanData :=
  {| service := EmptyString; service_type := EmptyString;
     name := EmptyString; resource := EmptyString; origin := None;
     trace_id := 0; span_id := 0; parent_id := 0;
     start := {| wall := 0; tick := 0 |}; duration := 0; error := false;
     tags := ∅; numeric_tags := ∅ |}.

(** Assignments to single fields. *)
Definition set_trace_id (v : Z) (d : SpanData) : SpanData :=
  {| service := service d; service_type := service_type d; name := name d;
     resource := resource d; origin := origin d; trace_id := v;
     span_id := span_id d; parent_id := parent_id d; start := start d;
     duration := duration d; error := error d; tags := tags d;
     numeric_tags := numeric_tags d |}.
Definition set_span_id (v : Z) (d : SpanData) : SpanData :=
  {| service := service d; service_type := service_type d; name := name d;
     resource := resource d; origin := origin d; trace_id := trace_id d;
     span_id := v; parent_id := parent_id d; start := start d;
     duration := duration d; error := error d; tags := tags d;
     numeric_tags := numeric_tags d |}.
Definition set_parent_id (v : Z) (d : SpanData) : SpanData :=
  {| service := service d; service_type := service_type d; name := name d;
     resource := resource d; origin := origin d; trace_id := trace_id d;
     span_id := span_id d; parent_id := v; start := start d;
     duration := duration d; error := error d; tags := tags d;
     numeric_tags := numeric_tags d |}.
Definition set_duration (v : Z) (d : SpanData) : SpanData :=
  {| service := service d; service_type := service_type d; name := name d;
     resource := resource d; origin := origin d; trace_id := trace_id d;
     span_id := span_id d; parent_id := parent_id d; start := start d;
     duration := v; error := error d; tags := tags d;
     numeric_tags := numeric_tags d |}.
Definition set_error_flag (v : bool) (d : SpanData) : SpanData :=
  {| service := service d; service_type := service_type d; name := name d;
     resource := resource d; origin := origin d; trace_id := trace_id d;
     span_id := span_id d; parent_id := parent_id d; start := start d;
     duration := duration d; error := v; tags := tags d;
     numeric_tags := numeric_tags d |}.
Definition set_tags (v : gmap string string) (d : SpanData) : SpanData :=
  {| service := service d; service_type := service_type d; name := name d;
     resource := resource d; origin := origin d; trace_id := trace_id d;
     span_id := span_id d; parent_id := parent_id d; start := start d;
     duration := duration d; error := error d; tags := v;
     numeric_tags := numeric_tags d |}.

Definition set_service (v : string) (d : SpanData) : SpanData :=
  {| service := v; service_type := service_type d; name := name d;
     resource := resource d; origin := origin d; trace_id := trace_id d;
     span_id := span_id d; parent_id := parent_id d; start := start d;
     duration := duration d; error := error d; tags := tags d;
     numeric_tags := numeric_tags d |}.
Definition set_service_type_field (v : string) (d : SpanData) : SpanData :=
  {| service := service d; service_type := v; name := name d;
     resource := resource d; origin := origin d; trace_id := trace_id d;
     span_id := span_id d; parent_id := parent_id d; start := start d;
     duration := duration d; error := error d; tags := tags d;
     numeric_tags := numeric_tags d |}.
Definition set_name (v : string) (d : SpanData) : SpanData :=
  {| service := service d; service_type := service_type d; name := v;
     resource := resource d; origin := origin d; trace_id := trace_id d;
     span_id := span_id d; parent_id := parent_id d; start := start d;
     duration := duration d; error := error d; tags := tags d;
     numeric_tags := numeric_tags d |}.
Definition set_resource (v : string) (d : SpanData) : SpanData :=
  {| service := service d; service_type := service_type d; name := name d;
     resource := v; origin := origin d; trace_id := trace_id d;
     span_id := span_id d; parent_id := parent_id d; start := start d;
     duration := duration d; error := error d; tags := tags d;
     numeric_tags := numeric_tags d |}.

(** What the span handle is given from outside and what the sources at hand
    do not define. *)
Class Externals := {
  (** the state behind the injected clock and id generator, and behind the
      sampler and collector a finished segment is handed to *)
  Env : Type;
  (** [SpanDefaults] and [SpanConfig], declared in headers not at hand *)
  SpanDefaults : Type;
  SpanConfig : Type;
  (** [SpanData::apply_config(defaults, config, clock)], defined in
      [span_data.cpp], not at hand: it merges the defaults and the config
      into the span data and may ask the clock for the start time *)
  apply_config :
    SpanDefaults -> SpanConfig -> (Env -> TimePoint * Env) ->
    SpanData -> Env -> SpanData * Env;
  (** what a segment does with its spans once all of them are finished
      (sampling, hand-over to the collector) *)
  finalize : list SpanData -> Env -> Env;
  (** the chars in memory after the string literal of [is_internal_tag] and
      its terminating NUL *)
  after_literal : nat -> ascii;
}.

Section WithExternals.
Context `{X : Externals}.

(** A [Clock] is a [std::function<TimePoint()>], an id generator a
    [std::function<std::uint64_t()>]: calls on the outside state. *)
Definition Clock : Type := Env -> TimePoint * Env.
Definition IdGenerator : Type := Env -> Z * Env.

(** [class TraceSegment] of [trace_segment.h], the members the span handle's
    calls work with: [defaults_], [spans_] (the addresses of the [SpanData]
    the segment owns, in the order of their registration) and
    [num_finished_spans_]. *)
Record TraceSegment := {
  defaults_ : SpanDefaults;
  spans_ : list nat;
  num_finished_spans_ : nat;
}.

(** The objects of a program run: the [SpanData] objects by address, the
    trace segments by address, and the outside state. *)
Record World := {
  heap : gmap nat SpanData;
  segments : gmap nat TraceSegment;
  env : Env;
}.

Definition with_heap (h : gmap nat SpanData) (w : World) : World :=
  {| heap := h; segments := segments w; env := env w |}.
Definition with_segments (s : gmap nat TraceSegment) (w : World) : World :=
  {| heap := heap w; segments := s; env := env w |}.
Definition with_env (e : Env) (w : World) : World :=
  {| heap := heap w; segments := segments w; env := e |}.

(** [class Span]: a shared pointer to the segment ([None] when null, as in a
    handle that was moved from), a raw pointer to the span data, the id
    generator, the clock and the optional end time. *)
Record Span := {
  trace_segment_ : option nat;
  data_ : nat;
  generate_span_id_ : IdGenerator;
  clock_ : Clock;
  end_time_ : option Z;
}.

(** ** Computations on the world *)

(** A computation returns a result and a new world, or has no defined
    behaviour ([None]): it dereferenced a null or dangling pointer. *)
Definition M (A : Type) : Type := World -> option (A * World).

Definition ret {A : Type} (a : A) : M A := fun w => Some (a, w).
Definition bind {A B : Type} (m : M A) (k : A -> M B) : M B :=
  fun w => match m w with
           | Some (a, w') => k a w'
           | None => None
           end.

End WithExternals.

Notation "'do' x <- m ; k" := (bind m (fun x => k))
  (at level 10, x name, m at level 100, k at level 200).
Notation "m ;; k" := (bind m (fun _ => k))
  (at level 100, k at level 200, right associativity).

Section Operations.
Context `{X : Externals}.

(** [*p] and [p->field = ...] on a [SpanData*], and the same on a segment. *)
Definition read_data (p : nat) : M SpanData :=
  fun w => match heap w !! p with
           | Some d => Some (d, w)
           | None => None
           end.
Definition write_data (p : nat) (f : SpanData -> SpanData) : M unit :=
  fun w => match heap w !! p with
           | Some d => Some (tt, with_heap (<[p := f d]> (heap w)) w)
           | None => None
           end.
Definition read_segment (s : nat) : M TraceSegment :=
  fun w => match segments w !! s with
           | Some seg => Some (seg, w)
           | None => None
           end.
Definition write_segment (s : nat) (f : TraceSegment -> TraceSegment) : M unit :=
  fun w => match segments w !! s with
           | Some seg => Some (tt, with_segments (<[s := f seg]> (segments w)) w)
           | None => None
           end.

(** A call of a [std::function] from outside. *)
Definition call {A : Type} (f : Env -> A * Env) : M A :=
  fun w => let (a, e) := f (env w) in Some (a, with_env e w).

(** [std::make_unique<SpanData>()]: a new object at an unused address. *)
Definition make_unique (d : SpanData) : M nat :=
  fun w => let p := fresh (dom (heap w)) in
           Some (p, with_heap (<[p := d]> (heap w)) w).

(** ** The trace segment, as far as the span handle uses it *)

(** [TraceSegment::defaults()]. *)
Definition defaults (s : nat) : M SpanDefaults :=
  do seg <- read_segment s; ret (defaults_ seg).

(** Modelled from the spec: [TraceSegment::register_span], defined in
    [trace_segment.cpp], not at hand; it "appends the span to the ordered
    sequence". *)
Definition register_span (s : nat) (span : nat) : M unit :=
  write_segment s (fun seg =>
    {| defaults_ := defaults_ seg; spans_ := spans_ seg ++ [span];
       num_finished_spans_ := num_finished_spans_ seg |}).

(** Modelled from the spec: [TraceSegment::span_finished], defined in
    [trace_segment.cpp], not at hand; it "increments num_finished.  When
    equal to spans.size(), finalizes": the sampling and the hand-over to the
    collector see the span data as they are at this moment. *)
Definition span_finished (s : nat) : M unit :=
  write_segment s (fun seg =>
    {| defaults_ := defaults_ seg; spans_ := spans_ seg;
       num_finished_spans_ := S (num_finished_spans_ seg) |}) ;;
  do seg <- read_segment s;
  if Nat.eqb (num_finished_spans_ seg) (length (spans_ seg)) then
    fun w => Some (tt, with_env
                         (finalize (omap (fun p => heap w !! p) (spans_ seg))
                                   (env w)) w)
  else ret tt.

(** ** Reserved tag names *)

(** A [std::string_view]: the chars in memory from its [data()] on, and its
    size.  [begin()] is offset [0], [end()] is offset [size]. *)
Record string_view := { chars_from_data : nat -> ascii; size : nat }.

(** [std::strlen]: the number of chars in front of the first NUL. *)
Fixpoint strlen (s : string) : nat :=
  match s with
  | EmptyString => 0
  | String c rest => if Ascii.eqb c zero then 0 else S (strlen rest)
  end.

(** The view of a string literal, a [std::string_view] made from a pointer
    to [const char]: in memory are the chars of the literal, the terminating NUL, then
    whatever follows the literal; the size is the [strlen] of the literal. *)
Definition literal (s : string) : string_view :=
  {| chars_from_data := fun i =>
       match String.get i s with
       | Some c => c
       | None => if Nat.eqb i (String.length s) then zero
                 else after_literal (i - String.length s - 1)
       end;
     size := strlen s |}.

(** [std::mismatch(first1, last1, first2)]: both iterators advance while
    [first1 != last1] and [*first1 == *first2]; the result is the pair of
    iterators.  The second range has no end of its own: when the first range
    is the longer one, the loop reads the chars that follow the second.
    [range1] is the text from [first1] to [last1], [memory2 i] is
    [*(first2 + i)], the result is the pair of offsets from [first1] and
    [first2]. *)
Fixpoint mismatch_from (n : nat) (range1 : string) (memory2 : nat -> ascii)
  : nat :=
  match range1 with
  | EmptyString => n
  | String c rest =>
      if Ascii.eqb c (memory2 n) then mismatch_from (S n) rest memory2 else n
  end.
Definition mismatch (range1 : string) (memory2 : nat -> ascii) : nat * nat :=
  let n := mismatch_from 0 range1 memory2 in (n, n).

(** [starts_with(subject, prefix)]. *)
Definition starts_with (subject : string) (prefix : string_view) : bool :=
  if Nat.ltb (String.length subject) (size prefix) then false
  else Nat.eqb (snd (mismatch subject (chars_from_data prefix))) (size prefix).

(** [is_internal_tag(tag_name)]. *)
Definition is_internal_tag (tag_name : string) : bool :=
  starts_with tag_name (literal "_dd.").

(** ** The span handle *)

(** [Span::Span(data, trace_segment, generate_span_id, clock)]. *)
Definition Span_new (data : nat) (trace_segment : nat)
  (generate_span_id : IdGenerator) (clock : Clock) : Span :=
  {| trace_segment_ := Some trace_segment; data_ := data;
     generate_span_id_ := generate_span_id; clock_ := clock;
     end_time_ := None |}.

(** The result of an operation on ticks of the steady clock, which are
    64-bit signed numbers: the operation has no defined behaviour when its
    result is not one. *)
Definition signed_64 (x : Z) : M Z :=
  fun w => if (- 2 ^ 63 <=? x) && (x <? 2 ^ 63) then Some (x, w) else None.

(** [Span::~Span()]. *)
Definition Span_destructor (self : Span) : M unit :=
  match trace_segment_ self with
  | None => ret tt
  | Some trace_segment =>
      match end_time_ self with
      | Some end_time =>
          do d <- read_data (data_ self);
          do difference <- signed_64 (end_time - tick (start d));
          write_data (data_ self) (set_duration difference)
      | None =>
          do now <- call (clock_ self);
          do d <- read_data (data_ self);
          do difference <- signed_64 (TimePoint_minus now (start d));
          write_data (data_ self) (set_duration difference)
      end ;;
      span_finished trace_segment
  end.

(** [trace_segment_->], which has no defined behaviour on a null pointer. *)
Definition trace_segment_arrow (self : Span) : M nat :=
  fun w => match trace_segment_ self with
           | Some s => Some (s, w)
           | None => None
           end.

(** [Span::create_child(config)]. *)
Definition create_child (self : Span) (config : SpanConfig) : M Span :=
  do span_data <- make_unique SpanData_new;
  do trace_segment <- trace_segment_arrow self;
  do segment_defaults <- defaults trace_segment;
  do fresh_data <- read_data span_data;
  do configured <-
    call (apply_config segment_defaults config (clock_ self) fresh_data);
  write_data span_data (fun _ => configured) ;;
  do parent <- read_data (data_ self);
  write_data span_data (set_trace_id (trace_id parent)) ;;
  do parent <- read_data (data_ self);
  write_data span_data (set_parent_id (span_id parent)) ;;
  do id <- call (generate_span_id_ self);
  write_data span_data (set_span_id id) ;;
  let span_data_ptr := span_data in
  register_span trace_segment span_data ;;
  ret {| trace_segment_ := trace_segment_ self; data_ := span_data_ptr;
         generate_span_id_ := generate_span_id_ self;
         clock_ := clock_ self; end_time_ := None |}.

(** [Span::id()] and [Span::trace_id()]. *)
Definition Span_id (self : Span) : M Z :=
  do d <- read_data (data_ self); ret (span_id d).
Definition Span_trace_id (self : Span) : M Z :=
  do d <- read_data (data_ self); ret (trace_id d).

(** [Span::lookup_tag(name)]. *)
Definition lookup_tag (self : Span) (name : string) : M (option string) :=
  if is_internal_tag name then ret None
  else
    do d <- read_data (data_ self);
    let found := tags d !! name in
    match found with
    | None => ret None
    | Some second => ret (Some second)
    end.

(** [Span::set_tag(name, value)]. *)
Definition set_tag (self : Span) (name value : string) : M unit :=
  if negb (is_internal_tag name) then
    write_data (data_ self) (fun d => set_tags (<[name := value]> (tags d)) d)
  else ret tt.

(** [Span::remove_tag(name)]. *)
Definition remove_tag (self : Span) (name : string) : M unit :=
  if negb (is_internal_tag name) then
    write_data (data_ self) (fun d => set_tags (delete name (tags d)) d)
  else ret tt.

(** [Span::set_error(std::string_view message)]. *)
Definition set_error_message (self : Span) (message : string) : M unit :=
  write_data (data_ self) (set_error_flag true) ;;
  write_data (data_ self)
    (fun d => set_tags (<["error.msg"%string := message]> (tags d)) d).

(** [Span::set_error(bool is_error)]. *)
Definition set_error (self : Span) (is_error : bool) : M unit :=
  write_data (data_ self) (set_error_flag is_error) ;;
  if negb is_error then
    write_data (data_ self)
      (fun d => set_tags (delete "error.msg"%string (tags d)) d)
  else ret tt.

(** [Span::set_end_time(end_time)] assigns a member of the handle. *)
Definition set_end_time (self : Span) (end_time : Z) : Span :=
  {| trace_segment_ := trace_segment_ self; data_ := data_ self;
     generate_span_id_ := generate_span_id_ self; clock_ := clock_ self;
     end_time_ := Some end_time |}.

(** [Span::set_service_name], [Span::set_service_type],
    [Span::set_resource_name] and [Span::set_operation_name]. *)
Definition set_service_name (self : Span) (service : string) : M unit :=
  write_data (data_ self) (set_service service).
Definition set_service_type (self : Span) (type : string) : M unit :=
  write_data (data_ self) (set_service_type_field type).
Definition set_resource_name (self : Span) (resource : string) : M unit :=
  write_data (data_ self) (set_resource resource).
Definition set_operation_name (self : Span) (value : string) : M unit :=
  write_data (data_ self) (set_name value).

(** [Span::trace_segment()]: [*trace_segment_]. *)
Definition Span_trace_segment (self : Span) : M nat := trace_segment_arrow self.

(** The value a computation returns, whatever world it leaves. *)
Definition returned {A : Type} (r : option (A * World)) : option A :=
  match r with
  | Some (a, _) => Some a
  | None => None
  end.

(** Two span data agree on everything but the tags and the error flag. *)
Definition same_but_tags_and_error (d d' : SpanData) : Prop :=
  service d' = service d /\ service_type d' = service_type d
  /\ name d' = name d /\ resource d' = resource d /\ origin d' = origin d
  /\ trace_id d' = trace_id d /\ span_id d' = span_id d
  /\ parent_id d' = parent_id d /\ start d' = start d
  /\ duration d' = duration d /\ numeric_tags d' = numeric_tags d.

(** A 64-bit signed number. *)
Definition in_int64 (x : Z) : Prop := - 2 ^ 63 <= x < 2 ^ 63.

(** The tick at which [Span::~Span] takes the span to end: the end time that
    was set, else the tick of the clock. *)
Definition finish_tick (self : Span) (w : World) : Z :=
  match end_time_ self with
  | Some end_time => end_time
  | None => tick (fst (clock_ self (env w)))
  end.

(** Two span data agree on everything but the duration. *)
Definition same_but_duration (d d' : SpanData) : Prop :=
  service d' = service d /\ service_type d' = service_type d
  /\ name d' = name d /\ resource d' = resource d /\ origin d' = origin d
  /\ trace_id d' = trace_id d /\ span_id d' = span_id d
  /\ parent_id d' = parent_id d /\ start d' = start d
  /\ error d' = error d /\ tags d' = tags d
  /\ numeric_tags d' = numeric_tags d.

(** The duration [Span::~Span] is to write: the end time minus the start
    tick if an end time was set, else the tick of the clock minus the start
    tick. *)
Definition finished_duration (self : Span) (d : SpanData) (w : World) : Z :=
  match end_time_ self with
  | Some end_time => end_time - tick (start d)
  | None => tick (fst (clock_ self (env w))) - tick (start d)
  end.

(** The world in which [Span::~Span] calls [span_finished]: the duration is
    written, the clock was asked if no end time was set. *)
Definition duration_written (self : Span) (d : SpanData) (w : World) : World :=
  {| heap := <[data_ self := set_duration (finished_duration self d w) d]>
               (heap w);
     segments := segments w;
     env := match end_time_ self with
            | Some _ => env w
            | None => snd (clock_ self (env w))
            end |}.

(** The text of one NUL char. *)
Definition NUL : string := String "000"%char EmptyString.

(** All spans of a segment have the trace id [id]. *)
Definition shares_trace_id (w : World) (seg : TraceSegment) (id : Z) : Prop :=
  forall p, In p (spans_ seg) ->
            exists d, heap w !! p = Some d /\ trace_id d = id.

End Operations.

(** ** An outside to run the model on *)

(** The outside state counts the calls made so far; the clock starts at tick
    50 and ticks ten nanoseconds per call, ids count up from 1000, a config is an operation
    name and [apply_config] takes the start time from the clock. *)
Definition counting_externals : Externals :=
  {| Env := nat;
     SpanDefaults := string;
     SpanConfig := string;
     apply_config := fun service_default operation clock d e =>
       let (now, e') := clock e in
       ({| service := service_default; service_type := service_type d;
           name := operation; resource := resource d; origin := origin d;
           trace_id := trace_id d; span_id := span_id d;
           parent_id := parent_id d; start := now; duration := duration d;
           error := error d; tags := tags d;
           numeric_tags := numeric_tags d |}, e');
     finalize := fun spans e => (e + 100 * length spans)%nat;
     after_literal := fun _ => "x"%char |}.

Definition counting_clock : @Clock counting_externals :=
  fun e => ({| wall := 0; tick := 50 + 10 * Z.of_nat e |}, S e).
Definition counting_ids : @IdGenerator counting_externals :=
  fun e => (1000 + Z.of_nat e, S e).

(** A segment with its root span, started at tick 3, and the handle of the
    root. *)
Definition root_data : SpanData :=
  {| service := "web"; service_type := EmptyString; name := "root";
     resource := EmptyString; origin := None;
     trace_id := 7; span_id := 7; parent_id := 0;
     start := {| wall := 0; tick := 3 |}; duration := 0; error := false;
     tags := {[ "error.msg"%string := "boom"%string ]}; numeric_tags := ∅ |}.
Definition root_segment : @TraceSegment counting_externals :=
  @Build_TraceSegment counting_externals "web"%string [0%nat] 0%nat.
Definition root_world : @World counting_externals :=
  @Build_World counting_externals
    {[ 0%nat := root_data ]} {[ 0%nat := root_segment ]} 0%nat.
Definition root_span : @Span counting_externals :=
  Span_new 0 0 counting_ids counting_clock.

End Tracing.

(* ===================================================================== *)
(** * Text: lemmas on [string] shared by the developments below *)
(* ===================================================================== *)

Module StringFacts.

Lemma append_nil_r (s : string) : String.append s EmptyString = s.
Proof. induction s as [|c s IH]; cbn; [reflexivity|]. rewrite IH. reflexivity. Qed.

Lemma append_assoc (s1 s2 s3 : string) :
  String.append (String.append s1 s2) s3 = String.append s1 (String.append s2 s3).
Proof.
  induction s1 as [|c s1 IH]; cbn; [reflexivity|]. rewrite IH. reflexivity.
Qed.

Lemma append_length (s1 s2 : string) :
  String.length (String.append s1 s2)
  = (String.length s1 + String.length s2)%nat.
Proof.
  induction s1 as [|c s1 IH]; cbn; [reflexivity|]. rewrite IH. reflexivity.
Qed.

(** Two texts with the same last char and the same whole have the same front. *)
Lemma append_inj_last (s1 s2 : string) (a b : ascii) :
  String.append s1 (String a EmptyString)
  = String.append s2 (String b EmptyString) ->
  s1 = s2 /\ a = b.
Proof.
  revert s2. induction s1 as [|c s1 IH]; intros [|d s2]; cbn; intros H.
  - injection H as ->. split; reflexivity.
  - injection H as -> H. destruct s2; discriminate H.
  - injection H as -> H. destruct s1; discriminate H.
  - injection H as -> H. apply IH in H as [-> ->]. split; reflexivity.
Qed.

(** A text is empty or has a last char. *)
Lemma last_char (s : string) :
  s = EmptyString
  \/ exists front c, s = String.append front (String c EmptyString).
Proof.
  induction s as [|c s IH]; [left; reflexivity|right].
  destruct IH as [->|(front & d & ->)].
  - exists EmptyString, c. reflexivity.
  - exists (String c front), d. reflexivity.
Qed.

(** [String.prefix] decides [begins_with]. *)
Lemma prefix_begins_with (p s : string) :
  String.prefix p s = true <-> Text.begins_with p s.
Proof.
  unfold Text.begins_with. revert s.
  induction p as [|a p IH]; intros s.
  - split; [exists s; reflexivity|destruct s; reflexivity].
  - destruct s as [|b s]; cbn;
      [split; [discriminate|intros [? H]; discriminate H]|].
    destruct (ascii_dec a b) as [->|Hne].
    + rewrite IH. split; intros [after H]; exists after.
      * rewrite H. reflexivity.
      * injection H as H. exact H.
    + split; [discriminate|]. intros [after H]. injection H as H _.
      congruence.
Qed.

(** [substring] on an append. *)
Lemma substring_whole (s : string) : String.substring 0 (String.length s) s = s.
Proof. induction s as [|c s IH]; cbn; [reflexivity|]. rewrite IH. reflexivity. Qed.

Lemma substring_front (s t : string) :
  String.substring 0 (String.length s) (String.append s t) = s.
Proof.
  induction s as [|c s IH]; cbn; [destruct t; reflexivity|].
  rewrite IH. reflexivity.
Qed.

Lemma substring_skip (s t : string) (n m : nat) :
  String.substring (String.length s + n) m (String.append s t)
  = String.substring n m t.
Proof. induction s as [|c s IH]; cbn; [reflexivity|exact IH]. Qed.

End StringFacts.

(* ===================================================================== *)
(** * Properties of the MessagePack writer *)
(* ===================================================================== *)

Module MsgpackFacts.
Import Text Msgpack.

(** ** Big-endian payloads *)

Lemma pow256 (k : nat) : 2 ^ (8 * Z.of_nat (S k)) = 256 * 2 ^ (8 * Z.of_nat k).
Proof.
  replace (8 * Z.of_nat (S k)) with (8 + 8 * Z.of_nat k) by lia.
  rewrite Z.pow_add_r by lia. reflexivity.
Qed.

Lemma pow256_pos (k : nat) : 0 < 2 ^ (8 * Z.of_nat k).
Proof. apply Z.pow_pos_nonneg; lia. Qed.

(** One iteration of the loop: shifting and masking selects a base-256 digit. *)
Lemma shift_mask_digit (value j : Z) :
  0 <= j ->
  to_char (Z.land (Z.shiftr value (8 * j)) 0xFF) = (value / 2 ^ (8 * j)) mod 256.
Proof.
  intros Hj. unfold to_char, cast_unsigned.
  change 0xFF with (Z.ones 8). rewrite Z.land_ones by lia.
  rewrite Z.shiftr_div_pow2 by lia.
  change (2 ^ 8) with 256. apply Z.mod_mod. lia.
Qed.

(** The digits of [x], most significant first, as the loop enumerates them. *)
Lemma big_endian_digits (n : nat) (x : Z) :
  big_endian n x =
  map (fun i : nat => (x / 2 ^ (8 * ((Z.of_nat n - 1) - Z.of_nat i))) mod 256)
      (seq 0 n).
Proof.
  revert x. induction n as [|k IH]; intros x; [reflexivity|].
  rewrite seq_S, map_app. cbn [big_endian map Nat.add]. rewrite IH. f_equal.
  - apply map_ext_in. intros i Hi. apply in_seq in Hi.
    rewrite Z.div_div by (try apply Z.pow_pos_nonneg; lia).
    replace (8 * (Z.of_nat (S k) - 1 - Z.of_nat i))
      with (8 + 8 * (Z.of_nat k - 1 - Z.of_nat i)) by lia.
    rewrite Z.pow_add_r by lia. reflexivity.
  - replace (8 * (Z.of_nat (S k) - 1 - Z.of_nat k)) with 0 by lia.
    rewrite Z.pow_0_r, Z.div_1_r. reflexivity.
Qed.

(** A payload of [n] bytes only depends on the low [8 n] bits. *)
Lemma big_endian_mod (n : nat) (x : Z) :
  big_endian n (x mod 2 ^ (8 * Z.of_nat n)) = big_endian n x.
Proof.
  revert x. induction n as [|k IH]; intros x; [reflexivity|].
  cbn [big_endian]. rewrite pow256.
  pose proof (pow256_pos k) as Hpos.
  rewrite Z.rem_mul_r by lia.
  set (hi := (x / 256) mod 2 ^ (8 * Z.of_nat k)).
  pose proof (Z.mod_pos_bound x 256 ltac:(lia)) as Hlo.
  replace ((x mod 256 + 256 * hi) / 256) with hi
    by (apply (Z.div_unique _ 256 hi (x mod 256)); lia).
  replace ((x mod 256 + 256 * hi) mod 256) with (x mod 256)
    by (apply (Z.mod_unique _ 256 hi (x mod 256)); lia).
  subst hi. rewrite IH. reflexivity.
Qed.

(** [push_number_big_endian] appends the big-endian payload of its argument. *)
Lemma push_number_big_endian_spec (size : nat) (buffer : Buffer) (integer : Z) :
  push_number_big_endian size buffer integer = buffer ++ big_endian size integer.
Proof.
  unfold push_number_big_endian. f_equal.
  rewrite <- (big_endian_mod size integer), big_endian_digits.
  apply map_ext_in. intros i Hi. apply in_seq in Hi.
  unfold cast_unsigned. apply shift_mask_digit. lia.
Qed.

(** Reading a payload back gives the number modulo [256 ^ n]: the payload is
    the two's complement representation. *)
Lemma big_endian_value_app (l : list Z) (b : Z) :
  big_endian_value (l ++ [b]) = 256 * big_endian_value l + b.
Proof. unfold big_endian_value. rewrite fold_left_app. reflexivity. Qed.

Lemma big_endian_roundtrip (n : nat) (x : Z) :
  big_endian_value (big_endian n x) = x mod 2 ^ (8 * Z.of_nat n).
Proof.
  revert x. induction n as [|k IH]; intros x.
  - cbn. rewrite Z.mod_1_r. reflexivity.
  - cbn [big_endian]. rewrite big_endian_value_app, IH, pow256.
    pose proof (pow256_pos k). rewrite Z.rem_mul_r by lia. lia.
Qed.

Lemma big_endian_length (n : nat) (x : Z) : length (big_endian n x) = n.
Proof.
  revert x. induction n as [|k IH]; intros x; [reflexivity|].
  cbn [big_endian]. rewrite length_app, IH. cbn. lia.
Qed.

Lemma big_endian_bytes (n : nat) (x b : Z) :
  In b (big_endian n x) -> 0 <= b < 256.
Proof.
  revert x. induction n as [|k IH]; intros x; [intros []|].
  cbn [big_endian]. rewrite in_app_iff. intros [H|[<-|[]]].
  - eapply IH; eassumption.
  - apply Z.mod_pos_bound. lia.
Qed.

(** ** Conversions that leave a value in range alone *)

Lemma cast_signed_in_range (bits x : Z) :
  0 < bits -> - 2 ^ (bits - 1) <= x < 2 ^ (bits - 1) -> cast_signed bits x = x.
Proof.
  intros Hb Hx. unfold cast_signed.
  replace bits with (1 + (bits - 1)) at 2 by lia.
  rewrite Z.pow_add_r by lia. change (2 ^ 1) with 2.
  rewrite Z.mod_small; lia.
Qed.

Lemma cast_unsigned_in_range (bits x : Z) :
  0 <= x < 2 ^ bits -> cast_unsigned bits x = x.
Proof. intros Hx. unfold cast_unsigned. apply Z.mod_small. exact Hx. Qed.

(** The prefix bytes are chars already. *)
Lemma to_char_byte (c : Z) : 0 <= c < 256 -> to_char c = c.
Proof. intros H. apply cast_unsigned_in_range. exact H. Qed.

(** The byte of a negative fixnum is the two's complement of the number. *)
Lemma negative_fixnum_byte (v : Z) :
  -32 <= v < 0 -> Z.lor 0xE0 (v + 32) = v + 256.
Proof.
  intros Hv.
  assert (Hn : exists n : nat, (n < 32)%nat /\ v = Z.of_nat n - 32)
    by (exists (Z.to_nat (v + 32)); lia).
  destruct Hn as (n & Hn & ->).
  do 32 (destruct n as [|n]; [reflexivity|]). lia.
Qed.

Lemma pack_negative_table (buffer : Buffer) (v : Z) :
  - 2 ^ 63 <= v < 0 -> pack_negative buffer v = buffer ++ integer_encoding v.
Proof.
  intros Hv. unfold pack_negative, integer_encoding, push_back.
  destruct (Z.ltb_spec v 0) as [_|]; [|lia].
  unfold int_min, NEGATIVE_FIXNUM, INT8, INT16, INT32, INT64.
  rewrite !push_number_big_endian_spec.
  change (2 ^ (8 - 1)) with (2 ^ 7). change (2 ^ (16 - 1)) with (2 ^ 15).
  change (2 ^ (32 - 1)) with (2 ^ 31). change (2 ^ (64 - 1)) with (2 ^ 63).
  destruct (Z.leb_spec (-32) v) as [E0|E0];
    [|destruct (Z.leb_spec (- 2 ^ 7) v) as [E1|E1];
      [|destruct (Z.leb_spec (- 2 ^ 15) v) as [E2|E2];
        [|destruct (Z.leb_spec (- 2 ^ 31) v) as [E3|E3];
          [|destruct (Z.leb_spec (- 2 ^ 63) v) as [E4|E4]; [|lia]]]]].
  - rewrite (cast_unsigned_in_range 8 (v + 32)) by (cbn; lia).
    rewrite negative_fixnum_byte by lia.
    rewrite to_char_byte by lia. reflexivity.
  - rewrite <- app_assoc. reflexivity.
  - rewrite cast_signed_in_range by lia. rewrite <- app_assoc. reflexivity.
  - rewrite cast_signed_in_range by lia. rewrite <- app_assoc. reflexivity.
  - rewrite cast_signed_in_range by lia. rewrite <- app_assoc. reflexivity.
Qed.

Lemma pack_nonnegative_table (buffer : Buffer) (v : Z) :
  0 <= v < 2 ^ 64 -> pack_nonnegative buffer v = buffer ++ integer_encoding v.
Proof.
  intros Hv. unfold pack_nonnegative, integer_encoding, push_back.
  destruct (Z.ltb_spec v 0) as [|_]; [lia|].
  unfold uint_max, UINT8, UINT16, UINT32, UINT64.
  rewrite !push_number_big_endian_spec.
  destruct (Z.leb_spec v 0x7F) as [E0|E0];
    [|destruct (Z.leb_spec v (2 ^ 8 - 1)) as [E1|E1];
      [|destruct (Z.leb_spec v (2 ^ 16 - 1)) as [E2|E2];
        [|destruct (Z.leb_spec v (2 ^ 32 - 1)) as [E3|E3];
          [|destruct (Z.leb_spec v (2 ^ 64 - 1)) as [E4|E4]; [|lia]]]]].
  - rewrite (cast_unsigned_in_range 8 v) by (cbn; lia).
    rewrite to_char_byte by lia. reflexivity.
  - rewrite (cast_unsigned_in_range 8 v) by lia.
    rewrite <- app_assoc. reflexivity.
  - rewrite cast_unsigned_in_range by lia. rewrite <- app_assoc. reflexivity.
  - rewrite cast_unsigned_in_range by lia. rewrite <- app_assoc. reflexivity.
  - rewrite cast_unsigned_in_range by lia. rewrite <- app_assoc. reflexivity.
Qed.

(** C1.  Packing a 64-bit integer (signed or unsigned: any [v] with
    [-2^63 <= v < 2^64]) appends exactly the encoding of the decision table
    [integer_encoding]: a negative fixnum [0xE0 | (v + 32)] for [-32 <= v < 0],
    else INT8/16/32/64 (prefix [0xD0 .. 0xD3]) with a big-endian payload for
    the first type whose minimum is at most [v]; the raw byte for
    [0 <= v <= 0x7F], else UINT8/16/32/64 (prefix [0xCC .. 0xCF]) for the first
    type whose maximum is at least [v].  A payload of [n] bytes has [n] bytes
    and reads back, most significant byte first, as the number modulo
    [2^(8n)].  In particular [0x7F] gives [[0x7F]], [128] gives
    [[0xCC; 0x80]], [-1] gives [[0xFF]] and [-33] gives [[0xD0; 0xDF]]. *)
Theorem pack_integer_decision_table :
  (forall (buffer : Buffer) (v : Z),
      - 2 ^ 63 <= v < 2 ^ 64 ->
      pack_integer buffer v = buffer ++ integer_encoding v)
  /\ (forall (n : nat) (x : Z),
         length (big_endian n x) = n
         /\ big_endian_value (big_endian n x) = x mod 2 ^ (8 * Z.of_nat n))
  /\ pack_integer [] 0x7F = [0x7F]
  /\ pack_integer [] 128 = [0xCC; 0x80]
  /\ pack_integer [] (-1) = [0xFF]
  /\ pack_integer [] (-33) = [0xD0; 0xDF].
Proof.
  split; [|split; [|repeat split; reflexivity]].
  2: { intros n x. split; [apply big_endian_length|apply big_endian_roundtrip]. }
  intros buffer v Hv. unfold pack_integer.
  destruct (Z.ltb_spec v 0) as [Hneg|Hpos].
  - rewrite cast_signed_in_range by lia. apply pack_negative_table. lia.
  - rewrite cast_unsigned_in_range by lia. apply pack_nonnegative_table. lia.
Qed.

(** The table at work on an INT16 and on a UINT32. *)
Lemma pack_integer_decision_table_witness :
  pack_integer [0xC0] (-200) = [0xC0; 0xD1; 0xFF; 0x38]
  /\ pack_integer [] 70000 = [0xCE; 0x00; 0x01; 0x11; 0x70].
Proof.
  split.
  - rewrite (proj1 pack_integer_decision_table [0xC0] (-200)); [reflexivity|lia].
  - rewrite (proj1 pack_integer_decision_table [] 70000); [reflexivity|lia].
Defined.

(** ** Overflow *)

Ltac overflow_cases :=
  repeat match goal with
         | |- context [Z.leb ?a ?b] => destruct (Z.leb_spec a b)
         | |- context [Z.ltb ?a ?b] => destruct (Z.ltb_spec a b)
         end.

Lemma throws_returns (buffer : Buffer) : ~ throws (buffer, Returns).
Proof. intros [what H]. discriminate H. Qed.

Lemma throws_thrown (buffer : Buffer) (what : string) :
  throws (buffer, Throws_out_of_range what).
Proof. exists what. reflexivity. Qed.

Create HintDb overflow.
#[local] Hint Resolve throws_thrown : overflow.

Lemma pack_str_overflow (buffer : Buffer) (range : list Z) :
  let size := Z.of_nat (length range) in
  (throws (pack_str buffer range) <-> size > 2 ^ 32 - 1)
  /\ (size > 2 ^ 32 - 1 ->
      pack_str buffer range =
      (buffer, Throws_out_of_range
                 (make_overflow_message "string" size (2 ^ 32 - 1)))).
Proof.
  cbv zeta. unfold pack_str, uint_max. change (2 ^ 8 - 1) with 255.
  change (2 ^ 16 - 1) with 65535. change (2 ^ 32 - 1) with 4294967295.
  overflow_cases; (split; [split|]); intros Hthrow;
    try lia; try reflexivity; auto with overflow;
    exfalso; eapply throws_returns; exact Hthrow.
Qed.

Lemma pack_bin_overflow (buffer : Buffer) (range : list Z) :
  let size := Z.of_nat (length range) in
  (throws (pack_bin buffer range) <-> size > 2 ^ 32 - 1)
  /\ (size > 2 ^ 32 - 1 ->
      pack_bin buffer range =
      (buffer, Throws_out_of_range
                 (make_overflow_message "binary" size (2 ^ 32 - 1)))).
Proof.
  cbv zeta. unfold pack_bin, uint_max. change (2 ^ 8 - 1) with 255.
  change (2 ^ 16 - 1) with 65535. change (2 ^ 32 - 1) with 4294967295.
  overflow_cases; (split; [split|]); intros Hthrow;
    try lia; try reflexivity; auto with overflow;
    exfalso; eapply throws_returns; exact Hthrow.
Qed.

Lemma pack_array_overflow (buffer : Buffer) (size : Z) :
  (throws (pack_array buffer size) <-> size > 2 ^ 32 - 1)
  /\ (size > 2 ^ 32 - 1 ->
      pack_array buffer size =
      (buffer, Throws_out_of_range
                 (make_overflow_message "array" size (2 ^ 32 - 1)))).
Proof.
  unfold pack_array, uint_max.
  change (2 ^ 16 - 1) with 65535. change (2 ^ 32 - 1) with 4294967295.
  overflow_cases; (split; [split|]); intros Hthrow;
    try lia; try reflexivity; auto with overflow;
    exfalso; eapply throws_returns; exact Hthrow.
Qed.

Lemma pack_map_overflow (buffer : Buffer) (size : Z) :
  (throws (pack_map buffer size) <-> size > 2 ^ 32 - 1)
  /\ (size > 2 ^ 32 - 1 ->
      pack_map buffer size =
      (buffer, Throws_out_of_range
                 (make_overflow_message "map" size (2 ^ 32 - 1)))).
Proof.
  unfold pack_map, uint_max.
  change (2 ^ 16 - 1) with 65535. change (2 ^ 32 - 1) with 4294967295.
  overflow_cases; (split; [split|]); intros Hthrow;
    try lia; try reflexivity; auto with overflow;
    exfalso; eapply throws_returns; exact Hthrow.
Qed.

(** C2.  [pack_str], [pack_bin], [pack_array] and [pack_map] throw
    [std::out_of_range] exactly when the size exceeds [2^32 - 1]; a call that
    throws carries the overflow message for that size and leaves the buffer
    as it was.  The threshold is exact: size [2^32 - 1] returns, size [2^32]
    throws. *)
Theorem pack_overflow_threshold :
  (forall (buffer : Buffer) (range : list Z),
      let size := Z.of_nat (length range) in
      (throws (pack_str buffer range) <-> size > 2 ^ 32 - 1)
      /\ (size > 2 ^ 32 - 1 ->
          pack_str buffer range =
          (buffer, Throws_out_of_range
                     (make_overflow_message "string" size (2 ^ 32 - 1))))
      /\ (throws (pack_bin buffer range) <-> size > 2 ^ 32 - 1)
      /\ (size > 2 ^ 32 - 1 ->
          pack_bin buffer range =
          (buffer, Throws_out_of_range
                     (make_overflow_message "binary" size (2 ^ 32 - 1))))
      /\ (size = 2 ^ 32 - 1 ->
          snd (pack_str buffer range) = Returns
          /\ snd (pack_bin buffer range) = Returns)
      /\ (size = 2 ^ 32 ->
          throws (pack_str buffer range) /\ throws (pack_bin buffer range)))
  /\ (forall (buffer : Buffer) (size : Z),
         (throws (pack_array buffer size) <-> size > 2 ^ 32 - 1)
         /\ (size > 2 ^ 32 - 1 ->
             pack_array buffer size =
             (buffer, Throws_out_of_range
                        (make_overflow_message "array" size (2 ^ 32 - 1))))
         /\ (throws (pack_map buffer size) <-> size > 2 ^ 32 - 1)
         /\ (size > 2 ^ 32 - 1 ->
             pack_map buffer size =
             (buffer, Throws_out_of_range
                        (make_overflow_message "map" size (2 ^ 32 - 1)))))
  /\ (forall buffer : Buffer,
         pack_array buffer (2 ^ 32 - 1)
         = (buffer ++ [0xDD; 0xFF; 0xFF; 0xFF; 0xFF], Returns)
         /\ pack_map buffer (2 ^ 32 - 1)
            = (buffer ++ [0xDF; 0xFF; 0xFF; 0xFF; 0xFF], Returns)
         /\ pack_array buffer (2 ^ 32)
            = (buffer, Throws_out_of_range
                         (make_overflow_message "array" (2 ^ 32) (2 ^ 32 - 1)))
         /\ pack_map buffer (2 ^ 32)
            = (buffer, Throws_out_of_range
                         (make_overflow_message "map" (2 ^ 32) (2 ^ 32 - 1)))).
Proof.
  split; [|split].
  - intros buffer range. cbv zeta.
    pose proof (pack_str_overflow buffer range) as Hs.
    pose proof (pack_bin_overflow buffer range) as Hb.
    cbv zeta in Hs, Hb. destruct Hs as [Hs1 Hs2], Hb as [Hb1 Hb2].
    split; [exact Hs1|]. split; [exact Hs2|].
    split; [exact Hb1|]. split; [exact Hb2|]. split.
    + intros Heq. split.
      * destruct (pack_str buffer range) as [b [|what]] eqn:E; [reflexivity|].
        exfalso. assert (Hgt : Z.of_nat (length range) > 2 ^ 32 - 1)
          by (apply Hs1; eauto with overflow). lia.
      * destruct (pack_bin buffer range) as [b [|what]] eqn:E; [reflexivity|].
        exfalso. assert (Hgt : Z.of_nat (length range) > 2 ^ 32 - 1)
          by (apply Hb1; eauto with overflow). lia.
    + intros Heq. split; [apply Hs1|apply Hb1]; lia.
  - intros buffer size.
    destruct (pack_array_overflow buffer size) as [Ha1 Ha2].
    destruct (pack_map_overflow buffer size) as [Hm1 Hm2].
    split; [exact Ha1|]. split; [exact Ha2|]. split; [exact Hm1|exact Hm2].
  - intros buffer. unfold pack_array, pack_map.
    cbn [Z.leb Z.compare Pos.compare Pos.compare_cont uint_max].
    rewrite !push_number_big_endian_spec. unfold push_back.
    rewrite <- !app_assoc. repeat split; reflexivity.
Qed.

(** The threshold on two array headers and a short string. *)
Lemma pack_overflow_threshold_witness :
  throws (pack_array [0x91] (2 ^ 32 + 5))
  /\ ~ throws (pack_str [] [0x68; 0x69]).
Proof.
  destruct pack_overflow_threshold as (Hrange & Hsize & _).
  split.
  - apply (Hsize [0x91] (2 ^ 32 + 5)). lia.
  - intros H. apply (Hrange [] [0x68; 0x69]) in H. cbn in H. lia.
Defined.

(** ** The overflow message *)

Lemma string_of_uint_digits (d : Decimal.uint) (front back : string) (c : ascii) :
  NilEmpty.string_of_uint d = String.append front (String c back) -> digit c.
Proof.
  revert front.
  induction d as [|d IH|d IH|d IH|d IH|d IH|d IH|d IH|d IH|d IH|d IH];
    intros [|f front]; cbn; intros H; try discriminate H;
    injection H as H1 H2; subst;
    solve [ eapply IH; eassumption
          | eexists 0%N; split; [lia|reflexivity]
          | eexists 1%N; split; [lia|reflexivity]
          | eexists 2%N; split; [lia|reflexivity]
          | eexists 3%N; split; [lia|reflexivity]
          | eexists 4%N; split; [lia|reflexivity]
          | eexists 5%N; split; [lia|reflexivity]
          | eexists 6%N; split; [lia|reflexivity]
          | eexists 7%N; split; [lia|reflexivity]
          | eexists 8%N; split; [lia|reflexivity]
          | eexists 9%N; split; [lia|reflexivity] ].
Qed.

Lemma to_string_digits (n : Z) (front back : string) (c : ascii) :
  to_string n = String.append front (String c back) -> digit c.
Proof. apply string_of_uint_digits. Qed.

Lemma space_not_digit : ~ digit " "%char.
Proof.
  intros (k & Hk & H). apply (f_equal N_of_ascii) in H.
  rewrite N_ascii_embedding in H by lia. cbn in H. lia.
Qed.

(** A one-digit rendering is the rendering of a number below ten, and the
    digit is not the char of that code. *)
Lemma to_string_one_digit (n : Z) (c : ascii) :
  0 <= n -> to_string n = String c EmptyString -> c <> size_to_char n.
Proof.
  intros Hn H. unfold to_string in H.
  assert (Hk : exists k : N,
             (k < 10)%N /\ Z.to_N n = k /\ c = ascii_of_N (48 + k)).
  { rewrite <- (DecimalN.Unsigned.of_to (Z.to_N n)).
    destruct (N.to_uint (Z.to_N n)) as [|d|d|d|d|d|d|d|d|d|d]; cbn in H;
      try discriminate H; destruct d; try discriminate H;
      injection H as <-;
      [ exists 0%N | exists 1%N | exists 2%N | exists 3%N | exists 4%N
      | exists 5%N | exists 6%N | exists 7%N | exists 8%N | exists 9%N ];
      (split; [lia|split; reflexivity]). }
  destruct Hk as (k & Hk & Hnk & ->).
  unfold size_to_char, cast_unsigned.
  rewrite Z.mod_small by (change (2 ^ 8) with 256; lia).
  rewrite Hnk. intros Heq. apply (f_equal N_of_ascii) in Heq.
  rewrite !N_ascii_embedding in Heq by lia. lia.
Qed.

Lemma make_overflow_message_shape (type : string) (actual max : Z) :
  make_overflow_message type actual max =
  String.append "Cannot msgpack encode "
    (String.append type
       (String.append " of size "
          (String.append (to_string actual)
             (String.append ", which exceeds the protocol maximum of "
                (String (size_to_char max) ".")))))%string.
Proof.
  unfold make_overflow_message. cbv zeta.
  rewrite !StringFacts.append_assoc. reflexivity.
Qed.

Lemma to_string_nonempty (n : Z) : to_string n <> EmptyString.
Proof.
  unfold to_string. intros H.
  assert (Hnil : N.to_uint (Z.to_N n) = Decimal.Nil)
    by (destruct (N.to_uint (Z.to_N n)); try discriminate H; reflexivity).
  pose proof (DecimalN.Unsigned.of_to (Z.to_N n)) as Hback.
  rewrite Hnil in Hback. cbn in Hback. rewrite <- Hback in Hnil.
  discriminate Hnil.
Qed.

(** The text in front of the char that stands for the maximum ends with a
    space, so no rendering of a number can end at that char unless it is that
    char alone. *)
Lemma maximum_not_rendered (type : string) (actual max : Z) :
  0 <= max ->
  ~ ends_with (String.append (to_string max) ".")
      (make_overflow_message type actual max).
Proof.
  intros Hmax [before H]. rewrite make_overflow_message_shape in H.
  set (front := String.append "Cannot msgpack encode "
                  (String.append type
                     (String.append " of size "
                        (String.append (to_string actual)
                           ", which exceeds the protocol maximum of")))).
  assert (Hfront :
            String.append
              (String.append (String.append front " ")
                 (String (size_to_char max) EmptyString)) "."
            = String.append
                (String.append before (to_string max)) ".").
  { rewrite (StringFacts.append_assoc before), <- H. unfold front.
    rewrite !StringFacts.append_assoc. reflexivity. }
  clear H. apply StringFacts.append_inj_last in Hfront as [Hfront _].
  destruct (StringFacts.last_char (to_string max)) as [Hnil|(ds & d & Hds)].
  { exact (to_string_nonempty max Hnil). }
  rewrite Hds, <- StringFacts.append_assoc in Hfront.
  apply StringFacts.append_inj_last in Hfront as [Hfront Hd].
  destruct (StringFacts.last_char ds) as [->|(ds' & e & ->)].
  - cbn in Hds. apply to_string_one_digit in Hds; [|exact Hmax].
    congruence.
  - rewrite <- StringFacts.append_assoc in Hfront.
    apply StringFacts.append_inj_last in Hfront as [_ He].
    rewrite StringFacts.append_assoc in Hds. cbn in Hds.
    apply to_string_digits in Hds. subst e. exact (space_not_digit Hds).
Qed.

(** C9, as the code has it.  For every type name, size [actual] and size
    [max], the overflow message is the fixed text around the type name, the
    decimal digits of [actual], and ONE char for [max] (the char of code
    [max mod 256], [0xFF] for the limit [2^32 - 1]): it contains the decimal
    rendering of [actual], and it never ends with the decimal rendering of
    [max] followed by the full stop, so the maximum is not rendered as a
    number at its place.  (The digits of [max] can still occur elsewhere in
    the message, for instance inside the digits of [actual].) *)
Theorem make_overflow_message_maximum_is_one_char
  (type : string) (actual max : Z) :
  0 <= max ->
  make_overflow_message type actual max =
    String.append "Cannot msgpack encode "
      (String.append type
         (String.append " of size "
            (String.append (to_string actual)
               (String.append ", which exceeds the protocol maximum of "
                  (String (ascii_of_N (Z.to_N (max mod 256))) ".")))))
  /\ contains (to_string actual) (make_overflow_message type actual max)
  /\ ~ ends_with (String.append (to_string max) ".")
         (make_overflow_message type actual max).
Proof.
  intros Hmax. split; [apply make_overflow_message_shape|]. split.
  - exists (String.append "Cannot msgpack encode "
              (String.append type " of size ")),
      (String.append ", which exceeds the protocol maximum of "
         (String (size_to_char max) ".")).
    rewrite make_overflow_message_shape, !StringFacts.append_assoc.
    reflexivity.
  - apply maximum_not_rendered. exact Hmax.
Qed.

(** The message of an array of [2^32 + 7] elements. *)
Lemma make_overflow_message_maximum_is_one_char_witness :
  make_overflow_message "array" (2 ^ 32 + 7) (2 ^ 32 - 1) =
    String.append
      "Cannot msgpack encode array of size 4294967303, which exceeds the protocol maximum of "
      (String (ascii_of_N 255) ".")
  /\ ~ ends_with "4294967295."
         (make_overflow_message "array" (2 ^ 32 + 7) (2 ^ 32 - 1)).
Proof.
  pose proof (make_overflow_message_maximum_is_one_char
                "array" (2 ^ 32 + 7) (2 ^ 32 - 1) ltac:(lia)) as (Hshape & _ & Hend).
  split; [exact Hshape|exact Hend].
Defined.

(** C9, as stated, fails: the message of the overflow error that
    [pack_array] raises for [42949672950] elements contains the decimal
    rendering [4294967295] of the maximum, inside the digits of the size. *)
Lemma overflow_message_may_contain_maximum :
  ~ (forall (type : string) (actual max : Z),
        0 <= actual < 2 ^ 64 -> 0 <= max < 2 ^ 64 ->
        contains (to_string actual) (make_overflow_message type actual max)
        /\ ~ contains (to_string max) (make_overflow_message type actual max)).
Proof.
  intros H.
  destruct (H "array"%string 42949672950 (2 ^ 32 - 1)) as [_ Hnot]; [lia|lia|].
  apply Hnot.
  exists "Cannot msgpack encode array of size "%string,
    (String.append "0, which exceeds the protocol maximum of "
       (String (ascii_of_N 255) ".")).
  reflexivity.
Qed.

End MsgpackFacts.

(* ===================================================================== *)
(** * Properties of the agent URL parser *)
(* ===================================================================== *)

Module HTTPClientFacts.
Import Text HTTPClient.

#[local] Open Scope nat_scope.
#[local] Open Scope string_scope.

(** ** [std::search] *)

Section Search.
(** A needle with at least one char, as the separator is. *)
Variables (c : ascii) (tail : string).
Let needle := String c tail.

Lemma search_le (haystack : string) :
  search haystack needle <= String.length haystack.
Proof.
  induction haystack as [|a h IH]; cbn; [lia|].
  destruct (ascii_dec c a); [destruct (String.prefix tail h)|]; cbn; lia.
Qed.

(** An offset short of the end is the offset of an occurrence. *)
Lemma search_found (haystack : string) :
  search haystack needle < String.length haystack ->
  exists before after,
    haystack = String.append before (String.append needle after)
    /\ String.length before = search haystack needle.
Proof.
  induction haystack as [|a h IH]; [cbn; lia|].
  change (search (String a h) needle)
    with (if String.prefix needle (String a h) then 0
          else S (search h needle)).
  destruct (String.prefix needle (String a h)) eqn:E; intros Hlt.
  - apply StringFacts.prefix_begins_with in E as [after E].
    exists EmptyString, after. split; [exact E|reflexivity].
  - cbn [String.length] in Hlt.
    destruct IH as (before & after & Hh & Hlen); [lia|].
    exists (String a before), after.
    split; [exact (f_equal (String a) Hh)|cbn [String.length]; lia].
Qed.

(** No occurrence starts before the offset [std::search] returns. *)
Lemma search_first (before after : string) :
  search (String.append before (String.append needle after)) needle
  <= String.length before.
Proof.
  induction before as [|a b IH].
  - cbn [String.append].
    assert (E : String.prefix needle (String.append needle after) = true)
      by (apply StringFacts.prefix_begins_with; exists after; reflexivity).
    unfold needle in *. cbn [String.append search] in *. rewrite E. cbn. lia.
  - change (String.append (String a b) (String.append needle after))
      with (String a (String.append b (String.append needle after))).
    cbn [search String.length].
    destruct (String.prefix needle _); lia.
Qed.

Lemma search_end_iff (haystack : string) :
  search haystack needle = String.length haystack
  <-> ~ contains needle haystack.
Proof.
  split.
  - intros Hend (before & after & ->).
    pose proof (search_first before after) as Hle.
    rewrite Hend, !StringFacts.append_length in Hle.
    unfold needle in Hle. cbn [String.length] in Hle. lia.
  - intros Hnone. pose proof (search_le haystack) as Hle.
    destruct (Nat.eq_dec (search haystack needle) (String.length haystack))
      as [|Hne]; [assumption|].
    destruct (search_found haystack) as (before & after & Hh & _); [lia|].
    exfalso. apply Hnone. exists before, after. exact Hh.
Qed.
End Search.

(** ** [std::find] *)

Lemma find_end_iff (elements : list string) (value : string) :
  find elements value = List.length elements <-> ~ In value elements.
Proof.
  induction elements as [|e l IH]; cbn; [tauto|].
  destruct (String.eqb_spec e value) as [->|Hne].
  - split; [discriminate|]. intros H. exfalso. apply H. left. reflexivity.
  - split.
    + intros H [Heq|Hin]; [congruence|]. apply IH in Hin; [exact Hin|lia].
    + intros H. f_equal. apply IH. tauto.
Qed.

Lemma contains_char_cons (c a : ascii) (s : string) :
  contains (String c EmptyString) (String a s) ->
  a = c \/ contains (String c EmptyString) s.
Proof.
  intros ([|b before] & after & H); cbn in H; injection H as H1 H2.
  - left. exact H1.
  - right. exists before, after. exact H2.
Qed.

(** [std::find] on the chars of a text cuts it in two: no [c] in front, and
    the back is empty or begins with [c]. *)
Lemma find_char_split (text : string) (c : ascii) :
  let front := range text 0 (find_char text c) in
  let back := range text (find_char text c) (String.length text) in
  text = String.append front back
  /\ ~ contains (String c EmptyString) front
  /\ (back = EmptyString \/ begins_with (String c EmptyString) back).
Proof.
  cbv zeta. unfold range. induction text as [|a t IH].
  - cbn. split; [reflexivity|]. split; [|left; reflexivity].
    intros ([|? ?] & ? & H); discriminate H.
  - cbn [find_char]. destruct (Ascii.eqb_spec a c) as [->|Hne].
    + rewrite !Nat.sub_0_r, StringFacts.substring_whole. cbn.
      split; [reflexivity|]. split; [|right; exists t; reflexivity].
      intros ([|? ?] & ? & H); discriminate H.
    + cbn [String.length Nat.sub String.substring].
      rewrite Nat.sub_0_r in IH. destruct IH as (Ht & Hfront & Hback).
      split; [cbn; f_equal; exact Ht|]. split; [|exact Hback].
      intros H. apply contains_char_cons in H as [H|H]; [congruence|].
      exact (Hfront H).
Qed.

(** ** What [parse] computes on an input cut at its first separator *)

Lemma first_separator_offsets (input scheme rest : string) :
  splits_at_first_separator input scheme rest ->
  search input "://" = String.length scheme
  /\ String.length scheme <> String.length input
  /\ range input 0 (String.length scheme) = scheme
  /\ range input (String.length scheme + 3) (String.length input) = rest.
Proof.
  intros [Hinput Hfirst].
  assert (Hlen : String.length input = String.length scheme + 3 + String.length rest).
  { rewrite Hinput, !StringFacts.append_length. cbn. lia. }
  assert (Hle : search input "://" <= String.length scheme)
    by (rewrite Hinput; apply search_first).
  destruct (search_found ":" "//" input) as (before & after & Hb & Hblen);
    [lia|].
  apply Hfirst in Hb. unfold range.
  split; [lia|]. split; [lia|]. split.
  - rewrite Nat.sub_0_r, Hinput. apply StringFacts.substring_front.
  - rewrite Hlen, Hinput, StringFacts.substring_skip.
    replace (String.length scheme + 3 + String.length rest
             - (String.length scheme + 3)) with (String.length rest) by lia.
    cbn. apply StringFacts.substring_whole.
Qed.

Lemma contains_first_separator (input : string) :
  contains "://" input ->
  exists scheme rest, splits_at_first_separator input scheme rest.
Proof.
  intros Hc.
  assert (Hlt : search input "://" < String.length input).
  { pose proof (search_le ":" "//" input).
    destruct (Nat.eq_dec (search input "://") (String.length input)) as [E|];
      [|lia].
    apply search_end_iff in E. contradiction. }
  destruct (search_found ":" "//" input Hlt) as (scheme & rest & Hin & Hlen).
  exists scheme, rest. split; [exact Hin|].
  intros before after Hb. rewrite Hlen, Hb. apply search_first.
Qed.

Ltac parse_cases :=
  repeat match goal with
         | |- context [if ?b then _ else _] => destruct b
         | H : context [if ?b then _ else _] |- _ => destruct b
         end.

(** Unfold [parse] on an input cut at its first separator. *)
Ltac parse_at_first_separator H :=
  let Hsearch := fresh "Hsearch" in
  let Hne := fresh "Hne" in
  let Hscheme := fresh "Hscheme" in
  let Hrest := fresh "Hrest" in
  destruct (first_separator_offsets _ _ _ H)
    as (Hsearch & Hne & Hscheme & Hrest);
  unfold parse; cbv zeta;
  change (String.length "://") with 3;
  rewrite Hsearch, Hscheme, Hrest;
  match goal with
  | |- context [Nat.eqb (String.length ?a) (String.length ?b)] =>
      destruct (Nat.eqb_spec (String.length a) (String.length b)) as [?|_];
      [contradiction|]
  end.

Lemma parse_missing_separator (input : string) :
  fails_with URL_MISSING_SEPARATOR (parse input) <-> ~ contains "://" input.
Proof.
  unfold parse. cbv zeta.
  destruct (Nat.eqb_spec (search input "://") (String.length input)) as [E|E].
  - apply search_end_iff in E. split; [intros _; exact E|].
    intros _. eexists. reflexivity.
  - split.
    + intros [message H]. exfalso. parse_cases; discriminate H.
    + intros Hnone. apply search_end_iff in Hnone. contradiction.
Qed.

Lemma parse_unsupported_scheme (input scheme rest : string) :
  splits_at_first_separator input scheme rest ->
  fails_with URL_UNSUPPORTED_SCHEME (parse input) <-> ~ In scheme supported.
Proof.
  intros Hsplit. parse_at_first_separator Hsplit.
  destruct (Nat.eqb_spec (find supported scheme) (List.length supported))
    as [E|E].
  - apply find_end_iff in E. split; [intros _; exact E|].
    intros _. eexists. reflexivity.
  - split.
    + intros [message H]. exfalso. parse_cases; discriminate H.
    + intros Hnot. apply find_end_iff in Hnot. contradiction.
Qed.

Lemma parse_unix (input scheme rest : string) :
  splits_at_first_separator input scheme rest ->
  scheme = "unix" \/ scheme = "http+unix" \/ scheme = "https+unix" ->
  (fails_with URL_UNIX_DOMAIN_SOCKET_PATH_NOT_ABSOLUTE (parse input)
   <-> rest = EmptyString \/ ~ begins_with "/" rest)
  /\ (begins_with "/" rest ->
      parse input = Value {| scheme := scheme; authority := rest;
                             path := EmptyString |}).
Proof.
  intros Hsplit Hunix. parse_at_first_separator Hsplit.
  assert (Hfound : Nat.eqb (find supported scheme) (List.length supported)
                   = false)
    by (destruct Hunix as [->|[->| ->]]; reflexivity).
  assert (Hfamily : String.eqb scheme "unix" || String.eqb scheme "http+unix"
                    || String.eqb scheme "https+unix" = true)
    by (destruct Hunix as [->|[->| ->]]; reflexivity).
  rewrite Hfound, Hfamily. clear Hfound Hfamily.
  destruct rest as [|ch rest']; cbn.
  - split.
    + split; [intros _; left; reflexivity|intros _; eexists; reflexivity].
    + intros [after H]. discriminate H.
  - destruct (Ascii.eqb_spec ch "/") as [->|Hch]; cbn.
    + split; [|reflexivity]. split.
      * intros [message H]. discriminate H.
      * intros [H|H]; [discriminate H|]. exfalso. apply H.
        exists rest'. reflexivity.
    + split.
      * split; [|intros _; eexists; reflexivity].
        intros _. right. intros [after H]. injection H as H _. congruence.
      * intros [after H]. injection H as H _. congruence.
Qed.

Lemma parse_http (input scheme rest : string) :
  splits_at_first_separator input scheme rest ->
  scheme = "http" \/ scheme = "https" ->
  exists authority path,
    rest = String.append authority path
    /\ ~ contains "/" authority
    /\ (path = EmptyString \/ begins_with "/" path)
    /\ parse input = Value {| scheme := scheme; authority := authority;
                              path := path |}.
Proof.
  intros Hsplit Hhttp. parse_at_first_separator Hsplit.
  assert (Hfound : Nat.eqb (find supported scheme) (List.length supported)
                   = false)
    by (destruct Hhttp as [->| ->]; reflexivity).
  assert (Hfamily : String.eqb scheme "unix" || String.eqb scheme "http+unix"
                    || String.eqb scheme "https+unix" = false)
    by (destruct Hhttp as [->| ->]; reflexivity).
  rewrite Hfound, Hfamily. clear Hfound Hfamily.
  destruct (find_char_split rest "/") as (Hcut & Hfront & Hback).
  eexists _, _. split; [exact Hcut|]. split; [exact Hfront|].
  split; [exact Hback|reflexivity].
Qed.

(** C3.  [HTTPClient::URL::parse] is a total function into [Expected<URL>]
    (it is a Rocq function) and
    - fails with [URL_MISSING_SEPARATOR] exactly when the input contains no
      ["://"]; an input that contains one is cut at the first;
    - with [scheme] the text before the first ["://"] and [rest] the text
      after it, fails with [URL_UNSUPPORTED_SCHEME] exactly when [scheme] is
      not one of http, https, unix, http+unix, https+unix;
    - for a scheme of the unix family, fails with
      [URL_UNIX_DOMAIN_SOCKET_PATH_NOT_ABSOLUTE] exactly when [rest] is empty
      or does not begin with ["/"], and otherwise returns [scheme], the whole
      of [rest] as authority and an empty path;
    - for http and https returns [scheme], as authority [rest] up to its
      first ["/"] and as path what is left of [rest];
    and the three inputs of the specification parse as it says. *)
Theorem parse_spec :
  (forall input : string,
      fails_with URL_MISSING_SEPARATOR (parse input) <-> ~ contains "://" input)
  /\ (forall input : string,
         contains "://" input ->
         exists scheme rest, splits_at_first_separator input scheme rest)
  /\ (forall input scheme rest : string,
         splits_at_first_separator input scheme rest ->
         (fails_with URL_UNSUPPORTED_SCHEME (parse input)
          <-> ~ In scheme ["http"; "https"; "unix"; "http+unix"; "https+unix"])
         /\ (scheme = "unix" \/ scheme = "http+unix" \/ scheme = "https+unix" ->
             (fails_with URL_UNIX_DOMAIN_SOCKET_PATH_NOT_ABSOLUTE (parse input)
              <-> rest = EmptyString \/ ~ begins_with "/" rest)
             /\ (begins_with "/" rest ->
                 parse input = Value {| scheme := scheme; authority := rest;
                                        path := EmptyString |}))
         /\ (scheme = "http" \/ scheme = "https" ->
             exists authority path,
               rest = String.append authority path
               /\ ~ contains "/" authority
               /\ (path = EmptyString \/ begins_with "/" path)
               /\ parse input = Value {| scheme := scheme;
                                         authority := authority;
                                         path := path |}))
  /\ parse "http://localhost:8126"
     = Value {| scheme := "http"; authority := "localhost:8126";
                path := EmptyString |}
  /\ parse "unix:///var/run/datadog/apm.sock"
     = Value {| scheme := "unix"; authority := "/var/run/datadog/apm.sock";
                path := EmptyString |}
  /\ fails_with URL_UNSUPPORTED_SCHEME (parse "ftp://x").
Proof.
  split; [exact parse_missing_separator|].
  split; [exact contains_first_separator|].
  split.
  - intros input scheme rest Hsplit.
    split; [exact (parse_unsupported_scheme input scheme rest Hsplit)|].
    split; [exact (parse_unix input scheme rest Hsplit)|].
    exact (parse_http input scheme rest Hsplit).
  - split; [reflexivity|]. split; [reflexivity|]. eexists. reflexivity.
Qed.

(** The cut of ["https://dd-agent:8126/v0.4/traces"]. *)
Lemma dd_agent_first_separator :
  splits_at_first_separator "https://dd-agent:8126/v0.4/traces"
    "https" "dd-agent:8126/v0.4/traces".
Proof.
  split; [reflexivity|]. intros before after H.
  do 5 (destruct before as [|? before];
        [discriminate H|cbn in H; injection H as _ H]).
  cbn. lia.
Defined.

(** An https URL with a resource path. *)
Lemma parse_spec_witness :
  exists authority path,
    "dd-agent:8126/v0.4/traces" = String.append authority path
    /\ ~ contains "/" authority
    /\ (path = EmptyString \/ begins_with "/" path)
    /\ parse "https://dd-agent:8126/v0.4/traces"
       = Value {| scheme := "https"; authority := authority; path := path |}.
Proof.
  destruct parse_spec as (_ & _ & Hcut & _).
  destruct (Hcut "https://dd-agent:8126/v0.4/traces" "https"
              "dd-agent:8126/v0.4/traces" dd_agent_first_separator)
    as (_ & _ & Hhttp).
  apply Hhttp. right. reflexivity.
Defined.

End HTTPClientFacts.

(* ===================================================================== *)
(** * Properties of the span handle *)
(* ===================================================================== *)

Module TracingFacts.
Import Text Tracing.

#[local] Open Scope string_scope.

Section WithExternals.
Context `{X : Externals}.

(** One step of a computation: project the world, then resolve a lookup or
    a call with what is known. *)
Ltac run_step :=
  cbn [heap segments env with_heap with_env with_segments defaults_ fst snd];
  first [ rewrite lookup_insert_eq
        | rewrite lookup_insert_ne by congruence
        | match goal with H : _ !! _ = Some _ |- _ => rewrite H end
        | match goal with H : _ = (_, _) |- _ => rewrite H end ].

(** ** Finishing a span *)

Lemma span_finished_run (s : nat) (seg : TraceSegment) (w : World) :
  segments w !! s = Some seg ->
  span_finished s w =
  Some (tt,
        {| heap := heap w;
           segments :=
             <[s := {| defaults_ := defaults_ seg; spans_ := spans_ seg;
                       num_finished_spans_ := S (num_finished_spans_ seg) |}]>
               (segments w);
           env := if Nat.eqb (S (num_finished_spans_ seg))
                             (length (spans_ seg))
                  then finalize (omap (fun p => heap w !! p) (spans_ seg))
                                (env w)
                  else env w |}).
Proof.
  intros Hseg. unfold span_finished, bind, write_segment, read_segment, ret.
  rewrite Hseg. cbn [with_segments segments heap env].
  rewrite lookup_insert_eq.
  cbn [num_finished_spans_ spans_ defaults_ with_env segments heap env].
  destruct (Nat.eqb (S (num_finished_spans_ seg)) (length (spans_ seg)));
    reflexivity.
Qed.

(** C8.  Destroying a handle that was moved from (its segment pointer is
    null) is defined whatever its data pointer is, and leaves the world as
    it was: no span data is read or written, the clock is not asked, no
    segment counts a finished span. *)
Theorem destructor_moved_from (self : Span) (w : World) :
  trace_segment_ self = None -> Span_destructor self w = Some (tt, w).
Proof. intros Hnull. unfold Span_destructor. rewrite Hnull. reflexivity. Qed.

Lemma signed_64_in_range (x : Z) (w : World) :
  in_int64 x -> signed_64 x w = Some (x, w).
Proof.
  intros [Hlo Hhi]. unfold signed_64.
  destruct (Z.leb_spec (- 2 ^ 63) x); [|lia].
  destruct (Z.ltb_spec x (2 ^ 63)); [|lia]. reflexivity.
Qed.

Lemma finished_duration_finish_tick (self : Span) (d : SpanData) (w : World) :
  finished_duration self d w = finish_tick self w - tick (start d).
Proof.
  unfold finished_duration, finish_tick. destruct (end_time_ self); reflexivity.
Qed.

(** C5.  Destroying a handle with a segment writes the duration and then
    calls [span_finished] once.  The ticks are 64-bit signed numbers and the
    difference is taken in 64 bits, so let the end tick (the end time set by
    [set_end_time], or else the tick the clock returns), the start tick and
    their difference be such numbers.  Then the destructor returns, the
    duration field of the span data is the end time minus the start tick if
    an end time was set and the tick of the clock minus the start tick if
    not, every other field of the span data is as before, and the destructor
    is [span_finished] run once on the world in which that duration is
    already written: the count of finished spans of the segment goes up by
    one, the other span data and the other segments are untouched. *)
Theorem destructor_finishes (self : Span) (w : World) (segment : nat)
  (d : SpanData) (seg : TraceSegment) :
  trace_segment_ self = Some segment ->
  heap w !! data_ self = Some d ->
  segments w !! segment = Some seg ->
  in_int64 (finish_tick self w) ->
  in_int64 (tick (start d)) ->
  in_int64 (finish_tick self w - tick (start d)) ->
  (forall end_time,
      end_time_ (set_end_time self end_time) = Some end_time
      /\ finished_duration (set_end_time self end_time) d w
         = end_time - tick (start d))
  /\ (end_time_ self = None ->
      finished_duration self d w
      = tick (fst (clock_ self (env w))) - tick (start d))
  /\ Span_destructor self w = span_finished segment (duration_written self d w)
  /\ exists (w' : World) (d' : SpanData),
      Span_destructor self w = Some (tt, w')
      /\ heap w' !! data_ self = Some d'
      /\ heap (duration_written self d w) !! data_ self = Some d'
      /\ duration d' = finish_tick self w - tick (start d)
      /\ (forall end_time,
             end_time_ self = Some end_time ->
             duration d' = end_time - tick (start d))
      /\ (end_time_ self = None ->
          duration d' = tick (fst (clock_ self (env w))) - tick (start d))
      /\ same_but_duration d d'
      /\ d' = set_duration (finished_duration self d w) d
      /\ (forall p, p <> data_ self -> heap w' !! p = heap w !! p)
      /\ segments w' !! segment
         = Some {| defaults_ := defaults_ seg; spans_ := spans_ seg;
                   num_finished_spans_ := S (num_finished_spans_ seg) |}
      /\ (forall s, s <> segment -> segments w' !! s = segments w !! s)
      /\ env w'
         = if Nat.eqb (S (num_finished_spans_ seg)) (length (spans_ seg))
           then finalize
                  (omap (fun p => heap (duration_written self d w) !! p)
                        (spans_ seg))
                  (env (duration_written self d w))
           else env (duration_written self d w).
Proof.
  intros Hsegment Hdata Hseg Hfinish Hstart Hdifference.
  split; [intros end_time; split; reflexivity|].
  split; [intros Hend; unfold finished_duration; rewrite Hend; reflexivity|].
  assert (Hrun : Span_destructor self w
                 = span_finished segment (duration_written self d w)).
  { unfold Span_destructor, duration_written, finished_duration.
    unfold finish_tick in Hdifference.
    rewrite Hsegment. unfold bind, read_data, write_data, call, TimePoint_minus.
    destruct (end_time_ self) as [end_time|].
    - rewrite Hdata, (signed_64_in_range _ w Hdifference), Hdata.
      reflexivity.
    - destruct (clock_ self (env w)) as [now e]. cbn [fst snd] in *.
      cbn [heap with_env]. rewrite Hdata.
      rewrite (signed_64_in_range _ _ Hdifference).
      cbn [heap with_env]. rewrite Hdata. reflexivity. }
  split; [exact Hrun|].
  rewrite Hrun, (span_finished_run segment seg) by exact Hseg.
  eexists _, (set_duration (finished_duration self d w) d).
  split; [reflexivity|]. cbn [heap segments env duration_written].
  split; [apply lookup_insert_eq|].
  split; [apply lookup_insert_eq|].
  cbn [duration set_duration].
  split; [apply finished_duration_finish_tick|].
  split.
  { intros end_time Hend. unfold finished_duration. rewrite Hend.
    reflexivity. }
  split.
  { intros Hend. unfold finished_duration. rewrite Hend. reflexivity. }
  split; [repeat split|].
  split; [reflexivity|].
  split; [intros p Hp; apply lookup_insert_ne; congruence|].
  split; [apply lookup_insert_eq|].
  split; [intros s Hs; apply lookup_insert_ne; congruence|reflexivity].
Qed.

(** A difference of ticks that is no 64-bit signed number: the subtraction
    of the destructor has no defined behaviour. *)
Lemma destructor_overflow (self : Span) (w : World) (segment : nat)
  (d : SpanData) :
  trace_segment_ self = Some segment ->
  heap w !! data_ self = Some d ->
  ~ in_int64 (finish_tick self w - tick (start d)) ->
  Span_destructor self w = None.
Proof.
  intros Hsegment Hdata Hover. unfold Span_destructor, finish_tick in *.
  rewrite Hsegment. unfold bind, read_data, call, TimePoint_minus, signed_64.
  destruct (end_time_ self) as [end_time|].
  - rewrite Hdata.
    destruct (Z.leb_spec (- 2 ^ 63) (end_time - tick (start d)));
      destruct (Z.ltb_spec (end_time - tick (start d)) (2 ^ 63));
      try reflexivity.
    exfalso. apply Hover. split; assumption.
  - destruct (clock_ self (env w)) as [now e]. cbn [fst snd] in *.
    cbn [heap with_env]. rewrite Hdata.
    destruct (Z.leb_spec (- 2 ^ 63) (tick now - tick (start d)));
      destruct (Z.ltb_spec (tick now - tick (start d)) (2 ^ 63));
      try reflexivity.
    exfalso. apply Hover. split; assumption.
Qed.

(** ** Children *)

(** C6.  [create_child] on a handle with a segment returns a handle on a new
    [SpanData], at an address not in use before, with the trace id of the
    parent, the span id of the parent as parent id, the span id the id
    generator returns, and otherwise the fields [apply_config] merged from
    the defaults of the segment and the config.  The new span data is the
    last of the spans of the same segment when the call returns, the child
    handle shares segment, id generator and clock; and if the spans of the
    segment, the parent among them, all had one trace id, they still do. *)
Theorem create_child_spec (self : Span) (config : SpanConfig) (w : World)
  (segment : nat) (parent : SpanData) (seg : TraceSegment) :
  trace_segment_ self = Some segment ->
  heap w !! data_ self = Some parent ->
  segments w !! segment = Some seg ->
  let configured :=
    apply_config (defaults_ seg) config (clock_ self) SpanData_new (env w) in
  let id := generate_span_id_ self (snd configured) in
  let seg' := {| defaults_ := defaults_ seg;
                 spans_ := (spans_ seg ++ [fresh (dom (heap w))])%list;
                 num_finished_spans_ := num_finished_spans_ seg |} in
  exists (child : Span) (w' : World) (data : SpanData),
    create_child self config w = Some (child, w')
    /\ heap w !! data_ child = None
    /\ heap w' = <[data_ child := data]> (heap w)
    /\ trace_id data = trace_id parent
    /\ parent_id data = span_id parent
    /\ span_id data = fst id
    /\ data = set_span_id (fst id)
                (set_parent_id (span_id parent)
                   (set_trace_id (trace_id parent) (fst configured)))
    /\ trace_segment_ child = Some segment
    /\ generate_span_id_ child = generate_span_id_ self
    /\ clock_ child = clock_ self
    /\ end_time_ child = None
    /\ segments w' = <[segment := seg']> (segments w)
    /\ spans_ seg' = (spans_ seg ++ [data_ child])%list
    /\ env w' = snd id
    /\ (forall trace : Z,
           In (data_ self) (spans_ seg) ->
           shares_trace_id w seg trace ->
           shares_trace_id w' seg' trace).
Proof.
  intros Hsegment Hparent Hseg. cbv zeta.
  set (p := fresh (dom (heap w))).
  assert (Hfresh : heap w !! p = None)
    by (apply not_elem_of_dom, is_fresh).
  assert (Hne : p <> data_ self) by (intros E; rewrite E in Hfresh; congruence).
  destruct (apply_config (defaults_ seg) config (clock_ self) SpanData_new
              (env w)) as [configured e1] eqn:Hconfigured.
  destruct (generate_span_id_ self e1) as [id e2] eqn:Hid.
  cbn [fst snd]. rewrite Hid. cbn [fst snd].
  eexists _, _, _. split.
  { unfold create_child, bind, make_unique, trace_segment_arrow, defaults,
      read_segment, read_data, write_data, call, register_span,
      write_segment, ret, bind.
    fold p. rewrite Hsegment. repeat run_step.
    rewrite !insert_insert_eq. reflexivity. }
  cbn [data_ trace_segment_ generate_span_id_ clock_ end_time_ heap segments
         env].
  split; [exact Hfresh|]. split; [reflexivity|].
  split; [reflexivity|]. split; [reflexivity|]. split; [reflexivity|].
  split; [reflexivity|]. split; [first [reflexivity|exact Hsegment]|].
  split; [reflexivity|]. split; [reflexivity|]. split; [reflexivity|].
  split; [reflexivity|]. split; [reflexivity|]. split; [reflexivity|].
  intros trace Hin Hshare q Hq. cbn [spans_] in Hq.
  cbn [heap with_heap with_segments with_env].
  apply in_app_iff in Hq as [Hq|[<-|[]]].
  - destruct (Hshare q Hq) as (d & Hd & Htrace). exists d.
    split; [|exact Htrace].
    rewrite lookup_insert_ne; [exact Hd|]. intros ->. congruence.
  - destruct (Hshare (data_ self) Hin) as (d & Hd & Htrace).
    rewrite Hparent in Hd. injection Hd as <-.
    eexists. split; [apply lookup_insert_eq|]. exact Htrace.
Qed.

(** ** The error flag *)

Lemma write_data_run (p : nat) (f : SpanData -> SpanData) (d : SpanData)
  (w : World) :
  heap w !! p = Some d ->
  write_data p f w = Some (tt, with_heap (<[p := f d]> (heap w)) w).
Proof. intros H. unfold write_data. rewrite H. reflexivity. Qed.

Lemma write_data_twice (p : nat) (f g : SpanData -> SpanData) (d : SpanData)
  (w : World) :
  heap w !! p = Some d ->
  (write_data p f ;; write_data p g) w
  = Some (tt, with_heap (<[p := g (f d)]> (heap w)) w).
Proof.
  intros H. unfold bind. rewrite (write_data_run p f d w H).
  rewrite (write_data_run p g (f d)) by apply lookup_insert_eq.
  unfold with_heap. cbn [heap segments env]. rewrite insert_insert_eq.
  reflexivity.
Qed.

(** What a write to the span data of a handle leaves as it was. *)
Lemma with_heap_frame (p : nat) (d' : SpanData) (w : World) :
  heap (with_heap (<[p := d']> (heap w)) w) !! p = Some d'
  /\ (forall q, q <> p ->
         heap (with_heap (<[p := d']> (heap w)) w) !! q = heap w !! q)
  /\ segments (with_heap (<[p := d']> (heap w)) w) = segments w
  /\ env (with_heap (<[p := d']> (heap w)) w) = env w.
Proof.
  cbn [with_heap heap segments env].
  split; [apply lookup_insert_eq|].
  split; [intros q Hq; apply lookup_insert_ne; congruence|].
  split; reflexivity.
Qed.

(** C7.  [set_error(false)] clears the error flag and erases the tag
    [error.msg]; [set_error(true)] sets the flag and leaves the tags as they
    are; [set_error(message)] sets the flag and stores the message under
    [error.msg].  Each of the three returns, and in the world it leaves the
    span data of the handle has that flag and those tags; every other tag,
    every other field of the span data, the span data of the other handles,
    the segments and the environment are as before. *)
Theorem set_error_spec (self : Span) (w : World) (d : SpanData)
  (message : string) :
  heap w !! data_ self = Some d ->
  (exists w' d',
      set_error self false w = Some (tt, w')
      /\ heap w' !! data_ self = Some d'
      /\ w' = with_heap (<[data_ self := d']> (heap w)) w
      /\ d' = set_tags (delete "error.msg" (tags d)) (set_error_flag false d)
      /\ error d' = false
      /\ tags d' !! "error.msg" = None
      /\ (forall key, key <> "error.msg" -> tags d' !! key = tags d !! key)
      /\ same_but_tags_and_error d d'
      /\ (forall p, p <> data_ self -> heap w' !! p = heap w !! p)
      /\ segments w' = segments w
      /\ env w' = env w)
  /\ (exists w' d',
         set_error self true w = Some (tt, w')
         /\ heap w' !! data_ self = Some d'
         /\ w' = with_heap (<[data_ self := d']> (heap w)) w
         /\ d' = set_error_flag true d
         /\ error d' = true
         /\ tags d' = tags d
         /\ same_but_tags_and_error d d'
         /\ (forall p, p <> data_ self -> heap w' !! p = heap w !! p)
         /\ segments w' = segments w
         /\ env w' = env w)
  /\ (exists w' d',
         set_error_message self message w = Some (tt, w')
         /\ heap w' !! data_ self = Some d'
         /\ w' = with_heap (<[data_ self := d']> (heap w)) w
         /\ d' = set_tags (<["error.msg" := message]> (tags d))
                   (set_error_flag true d)
         /\ error d' = true
         /\ tags d' !! "error.msg" = Some message
         /\ (forall key, key <> "error.msg" -> tags d' !! key = tags d !! key)
         /\ same_but_tags_and_error d d'
         /\ (forall p, p <> data_ self -> heap w' !! p = heap w !! p)
         /\ segments w' = segments w
         /\ env w' = env w).
Proof.
  intros Hdata. split; [|split].
  - eexists _, _. split.
    { unfold set_error. cbn [negb].
      apply (write_data_twice _ _ _ d w Hdata). }
    destruct (with_heap_frame (data_ self)
                (set_tags (delete "error.msg" (tags d))
                   (set_error_flag false d)) w)
      as (Hat & Hothers & Hsegments & Henv).
    split; [exact Hat|]. split; [reflexivity|].
    cbn [tags error set_tags set_error_flag].
    split; [reflexivity|]. split; [reflexivity|].
    split; [apply lookup_delete_eq|].
    split; [intros key Hkey; apply lookup_delete_ne; congruence|].
    split; [repeat split|].
    split; [exact Hothers|]. split; [exact Hsegments|exact Henv].
  - eexists _, _. split.
    { unfold set_error, bind, ret. cbn [negb].
      rewrite (write_data_run _ _ d w Hdata). reflexivity. }
    destruct (with_heap_frame (data_ self) (set_error_flag true d) w)
      as (Hat & Hothers & Hsegments & Henv).
    split; [exact Hat|]. split; [reflexivity|].
    split; [reflexivity|]. split; [reflexivity|]. split; [reflexivity|].
    split; [repeat split|].
    split; [exact Hothers|]. split; [exact Hsegments|exact Henv].
  - eexists _, _. split.
    { unfold set_error_message.
      apply (write_data_twice _ _ _ d w Hdata). }
    destruct (with_heap_frame (data_ self)
                (set_tags (<["error.msg" := message]> (tags d))
                   (set_error_flag true d)) w)
      as (Hat & Hothers & Hsegments & Henv).
    split; [exact Hat|]. split; [reflexivity|].
    cbn [tags error set_tags set_error_flag].
    split; [reflexivity|]. split; [reflexivity|].
    split; [apply lookup_insert_eq|].
    split; [intros key Hkey; apply lookup_insert_ne; congruence|].
    split; [repeat split|].
    split; [exact Hothers|]. split; [exact Hsegments|exact Henv].
Qed.

(** ** Reserved tag names *)

Lemma mismatch_from_ge (n : nat) (range1 : string) (memory2 : nat -> ascii) :
  (n <= mismatch_from n range1 memory2)%nat.
Proof.
  revert n. induction range1 as [|c rest IH]; intros n; cbn; [lia|].
  destruct (Ascii.eqb c (memory2 n)); [|lia].
  specialize (IH (S n)). lia.
Qed.

(** What the test of the source decides: the name begins with [_dd.] and
    does not go on with a NUL. *)
Lemma is_internal_tag_iff (tag_name : string) :
  is_internal_tag tag_name = true
  <-> begins_with "_dd." tag_name
      /\ ~ begins_with (String.append "_dd." NUL) tag_name.
Proof.
  unfold is_internal_tag, starts_with, mismatch, begins_with, NUL.
  cbn [size literal chars_from_data snd String.length].
  change (strlen "_dd.") with 4%nat.
  destruct tag_name as [|a [|b [|c [|d rest]]]];
    try (cbn; split; [discriminate|intros [[after H] _]; discriminate H]).
  cbn [String.length Nat.ltb Nat.leb mismatch_from String.get].
  destruct (Ascii.eqb_spec a "_") as [->|Ha];
    [|cbn; split; [discriminate|intros [[after H] _]; cbn in H; congruence]].
  cbn [String.get Nat.eqb].
  destruct (Ascii.eqb_spec b "d") as [->|Hb];
    [|cbn; split; [discriminate|intros [[after H] _]; cbn in H; congruence]].
  cbn [String.get Nat.eqb].
  destruct (Ascii.eqb_spec c "d") as [->|Hc];
    [|cbn; split; [discriminate|intros [[after H] _]; cbn in H; congruence]].
  cbn [String.get Nat.eqb].
  destruct (Ascii.eqb_spec d ".") as [->|Hd];
    [|cbn; split; [discriminate|intros [[after H] _]; cbn in H; congruence]].
  destruct rest as [|e rest]; cbn [mismatch_from String.get Nat.eqb String.length].
  - split; [intros _|reflexivity].
    split; [exists EmptyString; reflexivity|].
    intros [after H]. discriminate H.
  - destruct (Ascii.eqb_spec e zero) as [->|He].
    + split.
      * intros H. apply Nat.eqb_eq in H.
        match type of H with
        | mismatch_from 5 rest ?memory = _ =>
            pose proof (mismatch_from_ge 5 rest memory) as Hge
        end.
        lia.
      * intros [_ H]. exfalso. apply H. exists rest. reflexivity.
    + split; [intros _|reflexivity].
      split; [exists (String e rest); reflexivity|].
      intros [after H]. cbn in H. injection H as H _. apply He. exact H.
Qed.

(** The tag operations on a name the test takes for reserved, and on one it
    does not. *)
Lemma tag_operations_reserved (self : Span) (w : World) (name value : string) :
  is_internal_tag name = true ->
  set_tag self name value w = Some (tt, w)
  /\ remove_tag self name w = Some (tt, w)
  /\ lookup_tag self name w = Some (None, w).
Proof.
  intros H. unfold set_tag, remove_tag, lookup_tag. rewrite H.
  repeat split; reflexivity.
Qed.

Lemma tag_operations_ordinary (self : Span) (w : World) (d : SpanData)
  (name value : string) :
  is_internal_tag name = false ->
  heap w !! data_ self = Some d ->
  set_tag self name value w
  = Some (tt, with_heap
                (<[data_ self := set_tags (<[name := value]> (tags d)) d]>
                   (heap w)) w)
  /\ remove_tag self name w
     = Some (tt, with_heap
                   (<[data_ self := set_tags (delete name (tags d)) d]>
                      (heap w)) w)
  /\ lookup_tag self name w = Some (tags d !! name, w).
Proof.
  intros H Hdata. unfold set_tag, remove_tag, lookup_tag. rewrite H.
  cbn [negb]. rewrite !(write_data_run _ _ d w Hdata).
  split; [reflexivity|]. split; [reflexivity|].
  unfold bind, read_data, ret. rewrite Hdata.
  destruct (tags d !! name); reflexivity.
Qed.

Lemma reserved_then_nul_not_internal :
  is_internal_tag (String.append "_dd." NUL) = false.
Proof.
  destruct (is_internal_tag (String.append "_dd." NUL)) eqn:E; [|reflexivity].
  apply is_internal_tag_iff in E as [_ E]. exfalso. apply E.
  exists EmptyString. reflexivity.
Qed.

(** C4 fails on the name [_dd.] followed by one NUL char.  The name begins
    with the reserved prefix, yet [set_tag] stores a value under it,
    [remove_tag] erases it and [lookup_tag] returns what the tag map has
    for it: [std::mismatch] is given no end of the prefix and compares the
    NUL of the name with the NUL that terminates the literal, so the iterator
    it returns is past [prefix.end()]. *)
Theorem reserved_name_then_nul_not_ignored (self : Span) (w : World)
  (d : SpanData) (value : string) :
  heap w !! data_ self = Some d ->
  let name := String.append "_dd." NUL in
  begins_with "_dd." name
  /\ set_tag self name value w
     = Some (tt, with_heap
                   (<[data_ self := set_tags (<[name := value]> (tags d)) d]>
                      (heap w)) w)
  /\ remove_tag self name w
     = Some (tt, with_heap
                   (<[data_ self := set_tags (delete name (tags d)) d]>
                      (heap w)) w)
  /\ lookup_tag self name w = Some (tags d !! name, w).
Proof.
  intros Hdata name. split; [exists NUL; reflexivity|].
  apply tag_operations_ordinary;
    [exact reserved_then_nul_not_internal|exact Hdata].
Qed.

(** C10, with the case it misses.  The test of the source holds exactly for
    the names that begin with [_dd.] and do not go on with a NUL char: it
    holds for no other name, so [_dd], [_DD.x] and [x_dd.y] are ordinary
    names that [set_tag] writes, [remove_tag] erases and [lookup_tag]
    returns; and it fails for [_dd.] followed by a NUL char, whose first four
    chars are [_dd.]. *)
Theorem is_internal_tag_spec :
  (forall tag_name : string,
      is_internal_tag tag_name = true
      <-> begins_with "_dd." tag_name
          /\ ~ begins_with (String.append "_dd." NUL) tag_name)
  /\ begins_with "_dd." (String.append "_dd." NUL)
  /\ is_internal_tag (String.append "_dd." NUL) = false
  /\ is_internal_tag "_dd.x" = true
  /\ is_internal_tag "_dd." = true
  /\ (forall name : string,
         name = "_dd" \/ name = "_DD.x" \/ name = "x_dd.y" ->
         is_internal_tag name = false
         /\ forall (self : Span) (w : World) (d : SpanData) (value : string),
             heap w !! data_ self = Some d ->
             set_tag self name value w
             = Some (tt, with_heap
                           (<[data_ self :=
                                set_tags (<[name := value]> (tags d)) d]>
                              (heap w)) w)
             /\ remove_tag self name w
                = Some (tt, with_heap
                              (<[data_ self :=
                                   set_tags (delete name (tags d)) d]>
                                 (heap w)) w)
             /\ lookup_tag self name w = Some (tags d !! name, w)).
Proof.
  split; [exact is_internal_tag_iff|].
  split; [exists NUL; reflexivity|].
  split; [exact reserved_then_nul_not_internal|].
  split; [reflexivity|]. split; [reflexivity|].
  intros name Hname.
  assert (Hordinary : is_internal_tag name = false)
    by (destruct Hname as [->|[->| ->]]; reflexivity).
  split; [exact Hordinary|].
  intros self w d value Hdata.
  apply tag_operations_ordinary; assumption.
Qed.

End WithExternals.

(** ** The properties at work on a segment with its root span *)

Lemma root_data_at_0 : heap root_world !! data_ root_span = Some root_data.
Proof. reflexivity. Defined.

Lemma root_segment_at_0 : segments root_world !! 0%nat = Some root_segment.
Proof. reflexivity. Defined.

(** A handle that was moved from, with a data pointer to nowhere. *)
Lemma destructor_moved_from_witness :
  Span_destructor
    {| trace_segment_ := None; data_ := 42; generate_span_id_ := counting_ids;
       clock_ := counting_clock; end_time_ := None |} root_world
  = Some (tt, root_world).
Proof. apply (destructor_moved_from (X := counting_externals)). reflexivity. Defined.

Lemma in_int64_small (x : Z) : -1000 <= x <= 1000 -> in_int64 x.
Proof. unfold in_int64. lia. Defined.

(** The root, started at tick 3, finished by the clock at tick 50 and with
    an end time of 20. *)
Lemma destructor_finishes_witness :
  (exists w' d',
      Span_destructor root_span root_world = Some (tt, w')
      /\ heap w' !! 0%nat = Some d'
      /\ duration d' = 47 /\ same_but_duration root_data d')
  /\ (exists w' d',
         Span_destructor (set_end_time root_span 20) root_world = Some (tt, w')
         /\ heap w' !! 0%nat = Some d'
         /\ duration d' = 17 /\ same_but_duration root_data d').
Proof.
  split.
  - destruct (destructor_finishes (X := counting_externals)
                root_span root_world 0%nat root_data root_segment
                eq_refl root_data_at_0 root_segment_at_0
                (in_int64_small 50 ltac:(lia)) (in_int64_small 3 ltac:(lia))
                (in_int64_small 47 ltac:(lia)))
      as (_ & _ & _ & w' & d' & Hrun & Hdata & _ & Hduration & _ & _ & Hsame & _).
    exists w', d'. split; [exact Hrun|]. split; [exact Hdata|].
    split; [exact Hduration|exact Hsame].
  - destruct (destructor_finishes (X := counting_externals)
                (set_end_time root_span 20) root_world 0%nat root_data
                root_segment eq_refl root_data_at_0 root_segment_at_0
                (in_int64_small 20 ltac:(lia)) (in_int64_small 3 ltac:(lia))
                (in_int64_small 17 ltac:(lia)))
      as (_ & _ & _ & w' & d' & Hrun & Hdata & _ & Hduration & _ & _ & Hsame & _).
    exists w', d'. split; [exact Hrun|]. split; [exact Hdata|].
    split; [exact Hduration|exact Hsame].
Defined.

(** A child of the root. *)
Lemma create_child_spec_witness :
  exists child w' data,
    create_child root_span "db.query" root_world = Some (child, w')
    /\ heap w' !! data_ child = Some data
    /\ trace_id data = 7 /\ parent_id data = 7 /\ span_id data = 1001
    /\ name data = "db.query"
    /\ shares_trace_id w' {| defaults_ := "web" : @SpanDefaults counting_externals;
                             spans_ := [0%nat; data_ child];
                             num_finished_spans_ := 0 |} 7.
Proof.
  destruct (create_child_spec (X := counting_externals)
              root_span "db.query" root_world 0%nat root_data root_segment
              eq_refl root_data_at_0 root_segment_at_0)
    as (child & w' & data & Hrun & _ & Hheap & Htrace & Hparent & Hid & Hdata
        & _ & _ & _ & _ & _ & Hspans & _ & Hshare).
  exists child, w', data. split; [exact Hrun|].
  split; [rewrite Hheap; apply lookup_insert_eq|].
  split; [exact Htrace|]. split; [exact Hparent|]. split; [exact Hid|].
  split; [rewrite Hdata; reflexivity|].
  cbn [spans_ root_segment app] in Hspans.
  injection Hspans as Hspans. rewrite <- Hspans.
  apply (Hshare 7); [left; reflexivity|].
  intros p [<-|[]]. exists root_data. split; reflexivity.
Defined.

(** The root has the tag [error.msg] with the value [boom] and no error
    flag: clearing the error erases the tag, and an error message sets the
    flag and takes the place of the value. *)
Lemma set_error_spec_witness :
  (exists w' d',
      set_error root_span false root_world = Some (tt, w')
      /\ heap w' !! 0%nat = Some d'
      /\ error d' = false
      /\ tags d' !! "error.msg" = None
      /\ tags root_data !! "error.msg" = Some "boom")
  /\ (exists w' d',
         set_error_message root_span "oops" root_world = Some (tt, w')
         /\ heap w' !! 0%nat = Some d'
         /\ error d' = true
         /\ tags d' !! "error.msg" = Some "oops"
         /\ error root_data = false).
Proof.
  destruct (set_error_spec (X := counting_externals)
              root_span root_world root_data "oops" root_data_at_0)
    as ((w1 & d1 & Hrun1 & Hat1 & _ & _ & Herror1 & Htag1 & _)
        & _
        & (w2 & d2 & Hrun2 & Hat2 & _ & _ & Herror2 & Htag2 & _)).
  split.
  - exists w1, d1. split; [exact Hrun1|]. split; [exact Hat1|].
    split; [exact Herror1|]. split; [exact Htag1|reflexivity].
  - exists w2, d2. split; [exact Hrun2|]. split; [exact Hat2|].
    split; [exact Herror2|]. split; [exact Htag2|reflexivity].
Defined.

(** The root gets a tag under the reserved prefix. *)
Lemma reserved_name_then_nul_not_ignored_witness :
  exists w' d',
    set_tag root_span (String.append "_dd." NUL) "1" root_world = Some (tt, w')
    /\ heap w' !! 0%nat = Some d'
    /\ tags d' !! String.append "_dd." NUL = Some "1".
Proof.
  destruct (reserved_name_then_nul_not_ignored (X := counting_externals)
              root_span root_world root_data "1" root_data_at_0)
    as (_ & Hset & _).
  eexists _, _. split; [exact Hset|].
  split; [apply lookup_insert_eq|apply lookup_insert_eq].
Defined.

End TracingFacts.

(* ===================================================================== *)
(** * More on the MessagePack writer: what can be read back *)
(* ===================================================================== *)

Module MsgpackReading.
Import Text Msgpack MsgpackFacts.

(** ** Helpers *)

Lemma pack_integer_table (buffer : Buffer) (v : Z) :
  - 2 ^ 63 <= v < 2 ^ 64 ->
  pack_integer buffer v = buffer ++ integer_encoding v.
Proof.
  intros Hv. unfold pack_integer.
  destruct (Z.ltb_spec v 0) as [Hneg|Hpos].
  - rewrite cast_signed_in_range by lia. apply pack_negative_table. lia.
  - rewrite cast_unsigned_in_range by lia. apply pack_nonnegative_table. lia.
Qed.

(** A property of all naturals below a bound, checked by running through
    them. *)
Lemma below_by_cases (bound : nat) (P : nat -> bool) :
  forallb P (seq 0 bound) = true ->
  forall n, (n < bound)%nat -> P n = true.
Proof.
  intros Hall n Hn. rewrite forallb_forall in Hall. apply Hall.
  apply in_seq. lia.
Qed.

(** A prefix with its low bits clear: or-ing a small size in adds it. *)
Lemma lor_prefix (prefix room x : Z) :
  (prefix = 0xA0 /\ room = 32) \/ (prefix = 0x90 /\ room = 16)
  \/ (prefix = 0x80 /\ room = 16) ->
  0 <= x < room -> Z.lor prefix x = prefix + x.
Proof.
  intros Hprefix Hx.
  assert (Hcases : forall n, (n < 32)%nat ->
            (Z.lor 0xA0 (Z.of_nat n) =? 0xA0 + Z.of_nat n)
            && ((16 <=? n)%nat
                || (Z.lor 0x90 (Z.of_nat n) =? 0x90 + Z.of_nat n)
                   && (Z.lor 0x80 (Z.of_nat n) =? 0x80 + Z.of_nat n)) = true)
    by (apply below_by_cases; vm_compute; reflexivity).
  specialize (Hcases (Z.to_nat x) ltac:(lia)).
  rewrite Z2Nat.id in Hcases by lia.
  apply andb_true_iff in Hcases as [HA Hrest].
  destruct Hprefix as [[-> ->]|[[-> ->]|[-> ->]]].
  - apply Z.eqb_eq. exact HA.
  - apply orb_true_iff in Hrest as [Hbig|Hrest].
    + apply Nat.leb_le in Hbig. lia.
    + apply andb_true_iff in Hrest as [H9 _]. apply Z.eqb_eq. exact H9.
  - apply orb_true_iff in Hrest as [Hbig|Hrest].
    + apply Nat.leb_le in Hbig. lia.
    + apply andb_true_iff in Hrest as [_ H8]. apply Z.eqb_eq. exact H8.
Qed.

(** Or-ing any byte into [0xE0] gives a byte from [0xE0] on. *)
Lemma lor_negative_fixnum (x : Z) :
  0 <= x < 256 -> 0xE0 <= Z.lor 0xE0 x <= 0xFF.
Proof.
  intros Hx.
  assert (Hcases : forall n, (n < 256)%nat ->
            (0xE0 <=? Z.lor 0xE0 (Z.of_nat n))
            && (Z.lor 0xE0 (Z.of_nat n) <=? 0xFF) = true)
    by (apply below_by_cases; vm_compute; reflexivity).
  specialize (Hcases (Z.to_nat x) ltac:(lia)).
  rewrite Z2Nat.id in Hcases by lia.
  apply andb_true_iff in Hcases as [Hlo Hhi].
  apply Z.leb_le in Hlo, Hhi. lia.
Qed.

Lemma read_big_endian_payload (n : nat) (x : Z) (rest : list Z) :
  read_big_endian n (big_endian n x ++ rest)
  = Some (x mod 2 ^ (8 * Z.of_nat n), rest).
Proof.
  unfold read_big_endian.
  pose proof (big_endian_length n x) as Hlen.
  destruct (Nat.ltb_spec (length (big_endian n x ++ rest)) n) as [Hlt|_].
  - rewrite length_app in Hlt. lia.
  - rewrite <- Hlen at 1 3.
    rewrite firstn_app, firstn_all, Nat.sub_diag, firstn_O, app_nil_r.
    rewrite skipn_app, skipn_all, Nat.sub_diag, skipn_O.
    rewrite big_endian_roundtrip. reflexivity.
Qed.

Lemma read_big_endian_unsigned (n : nat) (x : Z) (rest : list Z) :
  0 <= x < 2 ^ (8 * Z.of_nat n) ->
  read_big_endian n (big_endian n x ++ rest) = Some (x, rest).
Proof.
  intros Hx. rewrite read_big_endian_payload, Z.mod_small by exact Hx.
  reflexivity.
Qed.

Lemma read_big_endian_negative (n : nat) (x : Z) (rest : list Z) :
  (0 < n)%nat -> - 2 ^ (8 * Z.of_nat n - 1) <= x < 0 ->
  read_big_endian_signed n (big_endian n x ++ rest) = Some (x, rest).
Proof.
  intros Hn Hx. unfold read_big_endian_signed.
  rewrite read_big_endian_payload.
  assert (Hpow : 2 ^ (8 * Z.of_nat n) = 2 * 2 ^ (8 * Z.of_nat n - 1)).
  { replace (8 * Z.of_nat n) with (1 + (8 * Z.of_nat n - 1)) at 1 by lia.
    rewrite Z.pow_add_r by lia. reflexivity. }
  assert (Hpos : 0 < 2 ^ (8 * Z.of_nat n - 1))
    by (apply Z.pow_pos_nonneg; lia).
  assert (Hmod : x mod 2 ^ (8 * Z.of_nat n) = x + 2 ^ (8 * Z.of_nat n)).
  { symmetry. apply (Z.mod_unique _ _ (-1)); lia. }
  rewrite Hmod.
  destruct (Z.ltb_spec (x + 2 ^ (8 * Z.of_nat n)) (2 ^ (8 * Z.of_nat n - 1)));
    [lia|]. f_equal. f_equal. lia.
Qed.

Ltac decide_bounds :=
  repeat match goal with
         | |- context [Z.leb ?a ?b] => destruct (Z.leb_spec a b); try lia
         | |- context [Z.ltb ?a ?b] => destruct (Z.ltb_spec a b); try lia
         | |- context [Z.eqb ?a ?b] => destruct (Z.eqb_spec a b); try lia
         end;
  cbn [andb orb].

Lemma unpack_integer_encoding (v : Z) (rest : list Z) :
  - 2 ^ 63 <= v < 2 ^ 64 ->
  unpack_integer (integer_encoding v ++ rest) = Some (v, rest).
Proof.
  intros Hv. unfold integer_encoding.
  destruct (Z.ltb_spec v 0) as [Hneg|Hpos].
  - destruct (Z.leb_spec (-32) v) as [E0|E0];
      [|destruct (Z.leb_spec (- 2 ^ 7) v) as [E1|E1];
        [|destruct (Z.leb_spec (- 2 ^ 15) v) as [E2|E2];
          [|destruct (Z.leb_spec (- 2 ^ 31) v) as [E3|E3]]]].
    + rewrite negative_fixnum_byte by lia. cbn [app unpack_integer].
      decide_bounds. f_equal. f_equal. lia.
    + change (unpack_integer ((0xD0 :: big_endian 1 v) ++ rest))
        with (read_big_endian_signed 1 (big_endian 1 v ++ rest)).
      apply read_big_endian_negative; [lia|]. cbn. lia.
    + change (unpack_integer ((0xD1 :: big_endian 2 v) ++ rest))
        with (read_big_endian_signed 2 (big_endian 2 v ++ rest)).
      apply read_big_endian_negative; [lia|]. cbn. lia.
    + change (unpack_integer ((0xD2 :: big_endian 4 v) ++ rest))
        with (read_big_endian_signed 4 (big_endian 4 v ++ rest)).
      apply read_big_endian_negative; [lia|]. cbn. lia.
    + change (unpack_integer ((0xD3 :: big_endian 8 v) ++ rest))
        with (read_big_endian_signed 8 (big_endian 8 v ++ rest)).
      apply read_big_endian_negative; [lia|]. cbn. lia.
  - destruct (Z.leb_spec v 0x7F) as [E0|E0];
      [|destruct (Z.leb_spec v (2 ^ 8 - 1)) as [E1|E1];
        [|destruct (Z.leb_spec v (2 ^ 16 - 1)) as [E2|E2];
          [|destruct (Z.leb_spec v (2 ^ 32 - 1)) as [E3|E3]]]].
    + cbn [app unpack_integer]. decide_bounds. reflexivity.
    + change (unpack_integer ((0xCC :: big_endian 1 v) ++ rest))
        with (read_big_endian 1 (big_endian 1 v ++ rest)).
      apply read_big_endian_unsigned. cbn. lia.
    + change (unpack_integer ((0xCD :: big_endian 2 v) ++ rest))
        with (read_big_endian 2 (big_endian 2 v ++ rest)).
      apply read_big_endian_unsigned. cbn. lia.
    + change (unpack_integer ((0xCE :: big_endian 4 v) ++ rest))
        with (read_big_endian 4 (big_endian 4 v ++ rest)).
      apply read_big_endian_unsigned. cbn. lia.
    + change (unpack_integer ((0xCF :: big_endian 8 v) ++ rest))
        with (read_big_endian 8 (big_endian 8 v ++ rest)).
      apply read_big_endian_unsigned. cbn. lia.
Qed.

(** ** Integers *)

(** X1.  What [pack_integer] appends for a 64-bit integer determines the
    integer: a reader of the MessagePack format gets the integer back and
    stops exactly where the encoding ends, so two integers followed by any
    bytes give the same bytes only if the integers and the following bytes
    are the same. *)
Theorem pack_integer_reads_back :
  (forall (v : Z) (rest : list Z),
      - 2 ^ 63 <= v < 2 ^ 64 ->
      unpack_integer (pack_integer [] v ++ rest) = Some (v, rest))
  /\ (forall (v1 v2 : Z) (rest1 rest2 : list Z),
         - 2 ^ 63 <= v1 < 2 ^ 64 -> - 2 ^ 63 <= v2 < 2 ^ 64 ->
         pack_integer [] v1 ++ rest1 = pack_integer [] v2 ++ rest2 ->
         v1 = v2 /\ rest1 = rest2).
Proof.
  assert (Hread : forall v rest, - 2 ^ 63 <= v < 2 ^ 64 ->
             unpack_integer (pack_integer [] v ++ rest) = Some (v, rest)).
  { intros v rest Hv. rewrite pack_integer_table by exact Hv.
    apply unpack_integer_encoding. exact Hv. }
  split; [exact Hread|].
  intros v1 v2 rest1 rest2 H1 H2 Heq.
  pose proof (Hread v1 rest1 H1) as R1. rewrite Heq, (Hread v2 rest2 H2) in R1.
  injection R1 as -> ->. split; reflexivity.
Qed.

Lemma pack_integer_reads_back_witness :
  unpack_integer (pack_integer [] (-129) ++ [0xC0]) = Some (-129, [0xC0])
  /\ (pack_integer [] 255 ++ [1] = pack_integer [] 255 ++ [1] ->
      255 = 255 /\ [1] = [1]).
Proof.
  destruct pack_integer_reads_back as [Hread Hunique]. split.
  - apply (Hread (-129) [0xC0]). lia.
  - apply (Hunique 255 255 [1] [1]); lia.
Defined.

Lemma big_endian_all_bytes (n : nat) (x : Z) :
  Forall (fun b => 0 <= b < 256) (big_endian n x).
Proof.
  apply Forall_forall. intros b Hb. apply list_elem_of_In in Hb.
  eapply big_endian_bytes, Hb.
Qed.

(** X2.  For a 64-bit integer [pack_integer] appends 1 byte for
    [-32 .. 127], else 2 bytes for [-128 .. 255], else 3 bytes for
    [-2^15 .. 2^16-1], else 5 bytes for [-2^31 .. 2^32-1], else 9 bytes; what
    it appends are bytes (each in [0, 256)) and the buffer it was given is
    left in front of them. *)
Theorem pack_integer_size (buffer : Buffer) (v : Z) :
  - 2 ^ 63 <= v < 2 ^ 64 ->
  exists bytes,
    pack_integer buffer v = buffer ++ bytes
    /\ length bytes = integer_encoding_length v
    /\ Forall (fun b => 0 <= b < 256) bytes.
Proof.
  intros Hv. exists (integer_encoding v).
  split; [apply pack_integer_table; exact Hv|].
  unfold integer_encoding, integer_encoding_length.
  destruct (Z.ltb_spec v 0) as [Hneg|Hpos].
  - destruct (Z.leb_spec (-32) v) as [E0|E0];
      [|destruct (Z.leb_spec (- 2 ^ 7) v) as [E1|E1];
        [|destruct (Z.leb_spec (- 2 ^ 15) v) as [E2|E2];
          [|destruct (Z.leb_spec (- 2 ^ 31) v) as [E3|E3]]]];
      decide_bounds;
      (split; [cbn [length]; rewrite ?big_endian_length; reflexivity|]);
      try (constructor; [lia|apply big_endian_all_bytes]).
    rewrite negative_fixnum_byte by lia. constructor; [lia|constructor].
  - destruct (Z.leb_spec v 0x7F) as [E0|E0];
      [|destruct (Z.leb_spec v (2 ^ 8 - 1)) as [E1|E1];
        [|destruct (Z.leb_spec v (2 ^ 16 - 1)) as [E2|E2];
          [|destruct (Z.leb_spec v (2 ^ 32 - 1)) as [E3|E3]]]];
      decide_bounds;
      (split; [cbn [length]; rewrite ?big_endian_length; reflexivity|]);
      try (constructor; [lia|apply big_endian_all_bytes]).
    constructor; [lia|constructor].
Qed.

Lemma pack_integer_size_witness :
  exists bytes,
    pack_integer [0xC0] 65536 = [0xC0] ++ bytes
    /\ length bytes = 5%nat
    /\ Forall (fun b => 0 <= b < 256) bytes.
Proof. apply (pack_integer_size [0xC0] 65536). lia. Defined.

(** X3.  [push_number_big_endian] for an integer type of [size] bytes
    appends exactly [size] bytes, each in [0, 256), and they read back, most
    significant byte first, as the integer modulo [2^(8 size)]: its two's
    complement representation, whatever the byte order of the host. *)
Theorem push_number_big_endian_reads_back (size : nat) (buffer : Buffer)
  (integer : Z) (rest : list Z) :
  exists payload,
    push_number_big_endian size buffer integer = buffer ++ payload
    /\ length payload = size
    /\ Forall (fun b => 0 <= b < 256) payload
    /\ big_endian_value payload = integer mod 2 ^ (8 * Z.of_nat size)
    /\ read_big_endian size (payload ++ rest)
       = Some (integer mod 2 ^ (8 * Z.of_nat size), rest).
Proof.
  exists (big_endian size integer).
  split; [apply push_number_big_endian_spec|].
  split; [apply big_endian_length|].
  split; [apply big_endian_all_bytes|].
  split; [apply big_endian_roundtrip|apply read_big_endian_payload].
Qed.

(** ** Appending *)

(** X4.  The writer only appends: every pack function leaves the bytes of
    the buffer it is given in front of what it adds, and what it adds does
    not depend on the buffer; a call that throws adds nothing. *)
Theorem pack_appends :
  (forall buffer, pack_nil buffer = buffer ++ pack_nil [])
  /\ (forall buffer value, pack_bool buffer value = buffer ++ pack_bool [] value)
  /\ (forall buffer value,
         pack_negative buffer value = buffer ++ pack_negative [] value)
  /\ (forall buffer value,
         pack_nonnegative buffer value = buffer ++ pack_nonnegative [] value)
  /\ (forall buffer value,
         pack_integer buffer value = buffer ++ pack_integer [] value)
  /\ (forall buffer as_integer,
         pack_double buffer as_integer = buffer ++ pack_double [] as_integer)
  /\ (forall buffer range,
         pack_str buffer range
         = (buffer ++ fst (pack_str [] range), snd (pack_str [] range)))
  /\ (forall buffer range,
         pack_bin buffer range
         = (buffer ++ fst (pack_bin [] range), snd (pack_bin [] range)))
  /\ (forall buffer size,
         pack_array buffer size
         = (buffer ++ fst (pack_array [] size), snd (pack_array [] size)))
  /\ (forall buffer size,
         pack_map buffer size
         = (buffer ++ fst (pack_map [] size), snd (pack_map [] size))).
Proof.
  assert (Hneg : forall buffer value,
             pack_negative buffer value = buffer ++ pack_negative [] value).
  { intros buffer value. unfold pack_negative, push_back.
    rewrite !push_number_big_endian_spec.
    repeat match goal with
           | |- context [Z.leb ?a ?b] => destruct (Z.leb a b)
           end;
      rewrite ?app_nil_l, <- ?app_assoc, ?app_nil_r; reflexivity. }
  assert (Hnonneg : forall buffer value,
             pack_nonnegative buffer value
             = buffer ++ pack_nonnegative [] value).
  { intros buffer value. unfold pack_nonnegative, push_back.
    rewrite !push_number_big_endian_spec.
    repeat match goal with
           | |- context [Z.leb ?a ?b] => destruct (Z.leb a b)
           end;
      rewrite ?app_nil_l, <- ?app_assoc, ?app_nil_r; reflexivity. }
  split; [reflexivity|].
  split; [intros buffer [|]; reflexivity|].
  split; [exact Hneg|]. split; [exact Hnonneg|].
  split.
  { intros buffer value. unfold pack_integer.
    destruct (value <? 0); [apply Hneg|apply Hnonneg]. }
  split.
  { intros buffer as_integer. unfold pack_double, push_back.
    rewrite !push_number_big_endian_spec, <- app_assoc. reflexivity. }
  split.
  { intros buffer range. unfold pack_str, push, push_back. cbv zeta.
    rewrite !push_number_big_endian_spec.
    repeat match goal with
           | |- context [Z.leb ?a ?b] => destruct (Z.leb a b)
           | |- context [Z.ltb ?a ?b] => destruct (Z.ltb a b)
           end;
      cbn [fst snd]; rewrite ?app_nil_l, <- ?app_assoc, ?app_nil_r;
      reflexivity. }
  split.
  { intros buffer range. unfold pack_bin, push, push_back. cbv zeta.
    rewrite !push_number_big_endian_spec.
    repeat match goal with
           | |- context [Z.leb ?a ?b] => destruct (Z.leb a b)
           end;
      cbn [fst snd]; rewrite ?app_nil_l, <- ?app_assoc, ?app_nil_r;
      reflexivity. }
  split.
  { intros buffer size. unfold pack_array, push_back. cbv zeta.
    rewrite !push_number_big_endian_spec.
    repeat match goal with
           | |- context [Z.leb ?a ?b] => destruct (Z.leb a b)
           end;
      cbn [fst snd]; rewrite ?app_nil_l, <- ?app_assoc, ?app_nil_r;
      reflexivity. }
  { intros buffer size. unfold pack_map, push_back. cbv zeta.
    rewrite !push_number_big_endian_spec.
    repeat match goal with
           | |- context [Z.leb ?a ?b] => destruct (Z.leb a b)
           end;
      cbn [fst snd]; rewrite ?app_nil_l, <- ?app_assoc, ?app_nil_r;
      reflexivity. }
Qed.

(** ** Strings, binaries and container headers *)

Lemma read_chars_exact (range rest : list Z) :
  read_chars (Z.of_nat (length range)) (range ++ rest) = Some (range, rest).
Proof.
  unfold read_chars. rewrite length_app, Nat2Z.id.
  destruct (Z.ltb_spec (Z.of_nat (length range + length rest))
              (Z.of_nat (length range))) as [Hlt|_]; [lia|].
  rewrite firstn_app, firstn_all, Nat.sub_diag, firstn_O, app_nil_r.
  rewrite skipn_app, skipn_all, Nat.sub_diag, skipn_O. reflexivity.
Qed.

(** A size byte pushed with [push_back] is a one-byte payload. *)
Lemma push_back_size_byte (buffer : Buffer) (size : Z) :
  0 <= size < 256 ->
  push_back buffer (cast_unsigned 8 size) = buffer ++ big_endian 1 size.
Proof.
  intros Hsize. unfold push_back.
  rewrite (cast_unsigned_in_range 8 size) by exact Hsize.
  rewrite to_char_byte by exact Hsize. cbn [big_endian app].
  rewrite Z.mod_small by exact Hsize. reflexivity.
Qed.

(** X5.  A string of at most [2^32 - 1] chars packed by [pack_str] reads
    back: after the prefix byte and size that [pack_str] chose, a reader of
    the MessagePack format finds the chars of the string, in order, and stops
    where they end.  So the packed bytes of two strings, each followed by any
    bytes, are equal only if the strings and the following bytes are. *)
Theorem pack_str_reads_back :
  (forall range rest : list Z,
      Z.of_nat (length range) <= 2 ^ 32 - 1 ->
      snd (pack_str [] range) = Returns
      /\ unpack_str (fst (pack_str [] range) ++ rest) = Some (range, rest))
  /\ (forall range1 range2 rest1 rest2 : list Z,
         Z.of_nat (length range1) <= 2 ^ 32 - 1 ->
         Z.of_nat (length range2) <= 2 ^ 32 - 1 ->
         fst (pack_str [] range1) ++ rest1 = fst (pack_str [] range2) ++ rest2 ->
         range1 = range2 /\ rest1 = rest2).
Proof.
  assert (Hread : forall range rest : list Z,
             Z.of_nat (length range) <= 2 ^ 32 - 1 ->
             snd (pack_str [] range) = Returns
             /\ unpack_str (fst (pack_str [] range) ++ rest)
                = Some (range, rest)).
  { intros range rest Hsize. unfold pack_str, push, uint_max. cbv zeta.
    set (size := Z.of_nat (length range)) in *.
    assert (Hnonneg : 0 <= size) by (unfold size; lia).
    destruct (Z.ltb_spec size 32) as [E0|E0];
      [|destruct (Z.leb_spec size (2 ^ 8 - 1)) as [E1|E1];
        [|destruct (Z.leb_spec size (2 ^ 16 - 1)) as [E2|E2];
          [|destruct (Z.leb_spec size (2 ^ 32 - 1)) as [E3|E3]; [|lia]]]];
      (split; [reflexivity|]); cbn [fst].
    - unfold push_back.
      rewrite (cast_unsigned_in_range 8 size) by (cbn; lia).
      rewrite (lor_prefix FIX_STR 32) by (auto; lia).
      rewrite to_char_byte by (unfold FIX_STR; lia).
      unfold unpack_str, unpack_size, FIX_STR. cbn [app].
      destruct (Z.leb_spec 0xA0 (0xA0 + size)); [|lia].
      destruct (Z.leb_spec (0xA0 + size) (0xA0 + 31)); [|lia].
      cbn [andb]. replace (0xA0 + size - 0xA0) with size by lia.
      apply read_chars_exact.
    - rewrite push_back_size_byte by (cbn in E1; lia).
      unfold push_back. rewrite <- !app_assoc.
      change (unpack_str ([] ++ [to_char STR8] ++ ?l))
        with (match read_big_endian 1 l with
              | Some (size, rest) => read_chars size rest
              | None => None
              end).
      rewrite read_big_endian_unsigned by (cbn in *; lia).
      apply read_chars_exact.
    - rewrite push_number_big_endian_spec.
      rewrite cast_unsigned_in_range by (cbn in *; lia).
      unfold push_back. rewrite <- !app_assoc.
      change (unpack_str ([] ++ [to_char STR16] ++ ?l))
        with (match read_big_endian 2 l with
              | Some (size, rest) => read_chars size rest
              | None => None
              end).
      rewrite read_big_endian_unsigned by (cbn in *; lia).
      apply read_chars_exact.
    - rewrite push_number_big_endian_spec.
      rewrite cast_unsigned_in_range by (cbn in *; lia).
      unfold push_back. rewrite <- !app_assoc.
      change (unpack_str ([] ++ [to_char STR32] ++ ?l))
        with (match read_big_endian 4 l with
              | Some (size, rest) => read_chars size rest
              | None => None
              end).
      rewrite read_big_endian_unsigned by (cbn in *; lia).
      apply read_chars_exact. }
  split; [exact Hread|].
  intros range1 range2 rest1 rest2 H1 H2 Heq.
  destruct (Hread range1 rest1 H1) as [_ R1].
  destruct (Hread range2 rest2 H2) as [_ R2].
  rewrite Heq, R2 in R1. injection R1 as -> ->. split; reflexivity.
Qed.

Lemma pack_str_reads_back_witness :
  unpack_str (fst (pack_str [] [0x68; 0x69]) ++ [0xC0])
  = Some ([0x68; 0x69], [0xC0]).
Proof.
  destruct pack_str_reads_back as [Hread _].
  apply (Hread [0x68; 0x69] [0xC0]). cbn. lia.
Defined.

(** X6.  A binary of at most [2^32 - 1] bytes packed by [pack_bin] reads
    back in the same way; the packed bytes of two binaries, each followed by
    any bytes, are equal only if the binaries and the following bytes are. *)
Theorem pack_bin_reads_back :
  (forall range rest : list Z,
      Z.of_nat (length range) <= 2 ^ 32 - 1 ->
      snd (pack_bin [] range) = Returns
      /\ unpack_bin (fst (pack_bin [] range) ++ rest) = Some (range, rest))
  /\ (forall range1 range2 rest1 rest2 : list Z,
         Z.of_nat (length range1) <= 2 ^ 32 - 1 ->
         Z.of_nat (length range2) <= 2 ^ 32 - 1 ->
         fst (pack_bin [] range1) ++ rest1 = fst (pack_bin [] range2) ++ rest2 ->
         range1 = range2 /\ rest1 = rest2).
Proof.
  assert (Hread : forall range rest : list Z,
             Z.of_nat (length range) <= 2 ^ 32 - 1 ->
             snd (pack_bin [] range) = Returns
             /\ unpack_bin (fst (pack_bin [] range) ++ rest)
                = Some (range, rest)).
  { intros range rest Hsize. unfold pack_bin, push, uint_max. cbv zeta.
    set (size := Z.of_nat (length range)) in *.
    assert (Hnonneg : 0 <= size) by (unfold size; lia).
    destruct (Z.leb_spec size (2 ^ 8 - 1)) as [E1|E1];
      [|destruct (Z.leb_spec size (2 ^ 16 - 1)) as [E2|E2];
        [|destruct (Z.leb_spec size (2 ^ 32 - 1)) as [E3|E3]; [|lia]]];
      (split; [reflexivity|]); cbn [fst].
    - rewrite push_back_size_byte by (cbn in E1; lia).
      unfold push_back. rewrite <- !app_assoc.
      change (unpack_bin ([] ++ [to_char BIN8] ++ ?l))
        with (match read_big_endian 1 l with
              | Some (size, rest) => read_chars size rest
              | None => None
              end).
      rewrite read_big_endian_unsigned by (cbn in *; lia).
      apply read_chars_exact.
    - rewrite push_number_big_endian_spec.
      rewrite cast_unsigned_in_range by (cbn in *; lia).
      unfold push_back. rewrite <- !app_assoc.
      change (unpack_bin ([] ++ [to_char BIN16] ++ ?l))
        with (match read_big_endian 2 l with
              | Some (size, rest) => read_chars size rest
              | None => None
              end).
      rewrite read_big_endian_unsigned by (cbn in *; lia).
      apply read_chars_exact.
    - rewrite push_number_big_endian_spec.
      rewrite cast_unsigned_in_range by (cbn in *; lia).
      unfold push_back. rewrite <- !app_assoc.
      change (unpack_bin ([] ++ [to_char BIN32] ++ ?l))
        with (match read_big_endian 4 l with
              | Some (size, rest) => read_chars size rest
              | None => None
              end).
      rewrite read_big_endian_unsigned by (cbn in *; lia).
      apply read_chars_exact. }
  split; [exact Hread|].
  intros range1 range2 rest1 rest2 H1 H2 Heq.
  destruct (Hread range1 rest1 H1) as [_ R1].
  destruct (Hread range2 rest2 H2) as [_ R2].
  rewrite Heq, R2 in R1. injection R1 as -> ->. split; reflexivity.
Qed.

Lemma pack_bin_reads_back_witness :
  unpack_bin (fst (pack_bin [] [0x00; 0xFF]) ++ [0xC0])
  = Some ([0x00; 0xFF], [0xC0]).
Proof.
  destruct pack_bin_reads_back as [Hread _].
  apply (Hread [0x00; 0xFF] [0xC0]). cbn. lia.
Defined.

(** X7.  The header [pack_array] and [pack_map] append for a size of at most
    [2^32 - 1] has 1 byte up to size 15, 3 bytes up to [2^16 - 1] and 5 bytes
    beyond, and a reader of the MessagePack format gets the size back from
    it; headers of different sizes differ. *)
Theorem pack_array_map_read_back (size : Z) (rest : list Z) :
  0 <= size <= 2 ^ 32 - 1 ->
  let header_length : nat :=
    if size <=? 15 then 1%nat else if size <=? 2 ^ 16 - 1 then 3%nat
    else 5%nat in
  pack_array [] size = (fst (pack_array [] size), Returns)
  /\ length (fst (pack_array [] size)) = header_length
  /\ unpack_array (fst (pack_array [] size) ++ rest) = Some (size, rest)
  /\ pack_map [] size = (fst (pack_map [] size), Returns)
  /\ length (fst (pack_map [] size)) = header_length
  /\ unpack_map (fst (pack_map [] size) ++ rest) = Some (size, rest).
Proof.
  intros Hsize. cbv zeta. unfold pack_array, pack_map, uint_max.
  destruct (Z.leb_spec size 15) as [E0|E0];
    [|destruct (Z.leb_spec size (2 ^ 16 - 1)) as [E2|E2];
      [|destruct (Z.leb_spec size (2 ^ 32 - 1)) as [E3|E3]; [|lia]]];
    cbn [fst].
  - unfold push_back.
    rewrite (cast_unsigned_in_range 8 size) by (cbn; lia).
    rewrite (lor_prefix FIX_ARRAY 16), (lor_prefix FIX_MAP 16) by (auto; lia).
    rewrite !to_char_byte by (unfold FIX_ARRAY, FIX_MAP; lia).
    unfold unpack_array, unpack_map, unpack_size, FIX_ARRAY, FIX_MAP.
    cbn [app length].
    destruct (Z.leb_spec 0x90 (0x90 + size)); [|lia].
    destruct (Z.leb_spec (0x90 + size) (0x90 + 15)); [|lia].
    destruct (Z.leb_spec 0x80 (0x80 + size)); [|lia].
    destruct (Z.leb_spec (0x80 + size) (0x80 + 15)); [|lia].
    cbn [andb].
    replace (0x90 + size - 0x90) with size by lia.
    replace (0x80 + size - 0x80) with size by lia.
    repeat split; reflexivity.
  - rewrite !push_number_big_endian_spec.
    rewrite cast_unsigned_in_range by (cbn in *; lia).
    unfold push_back. rewrite <- !app_assoc.
    change (unpack_array ([] ++ [to_char ARRAY16] ++ ?l))
      with (read_big_endian 2 l).
    change (unpack_map ([] ++ [to_char MAP16] ++ ?l))
      with (read_big_endian 2 l).
    rewrite !read_big_endian_unsigned by (cbn in *; lia).
    rewrite !length_app, !big_endian_length. repeat split; reflexivity.
  - rewrite !push_number_big_endian_spec.
    rewrite cast_unsigned_in_range by (cbn in *; lia).
    unfold push_back. rewrite <- !app_assoc.
    change (unpack_array ([] ++ [to_char ARRAY32] ++ ?l))
      with (read_big_endian 4 l).
    change (unpack_map ([] ++ [to_char MAP32] ++ ?l))
      with (read_big_endian 4 l).
    rewrite !read_big_endian_unsigned by (cbn in *; lia).
    rewrite !length_app, !big_endian_length. repeat split; reflexivity.
Qed.

Lemma pack_array_map_read_back_witness :
  length (fst (pack_array [] 16)) = 3%nat
  /\ unpack_map (fst (pack_map [] 70000) ++ [0xC0]) = Some (70000, [0xC0]).
Proof.
  split.
  - destruct (pack_array_map_read_back 16 [] ltac:(lia)) as (_ & H & _).
    exact H.
  - destruct (pack_array_map_read_back 70000 [0xC0] ltac:(lia))
      as (_ & _ & _ & _ & _ & H).
    exact H.
Defined.

(** ** First bytes *)

(** X8.  The first byte a pack function appends announces the kind of value
    in the MessagePack format: nil, bool, integer, double, string, binary,
    array header or map header; so no two pack functions of different kinds
    ever begin with the same byte. *)
Theorem first_byte_announces_kind :
  first_kind (pack_nil []) = Some KNil
  /\ (forall value, first_kind (pack_bool [] value) = Some KBool)
  /\ (forall v, - 2 ^ 63 <= v < 2 ^ 64 ->
                first_kind (pack_integer [] v) = Some KInteger)
  /\ (forall as_integer, first_kind (pack_double [] as_integer) = Some KDouble)
  /\ (forall range, Z.of_nat (length range) <= 2 ^ 32 - 1 ->
                    first_kind (fst (pack_str [] range)) = Some KStr
                    /\ first_kind (fst (pack_bin [] range)) = Some KBin)
  /\ (forall size, 0 <= size <= 2 ^ 32 - 1 ->
                   first_kind (fst (pack_array [] size)) = Some KArray
                   /\ first_kind (fst (pack_map [] size)) = Some KMap).
Proof.
  split; [reflexivity|]. split; [intros [|]; reflexivity|].
  split.
  { intros v Hv. rewrite pack_integer_table by exact Hv.
    unfold integer_encoding. cbn [app].
    destruct (Z.ltb_spec v 0) as [Hneg|Hpos].
    - destruct (Z.leb_spec (-32) v) as [E0|E0];
        [|destruct (Z.leb_spec (- 2 ^ 7) v) as [E1|E1];
          [|destruct (Z.leb_spec (- 2 ^ 15) v) as [E2|E2];
            [|destruct (Z.leb_spec (- 2 ^ 31) v) as [E3|E3]]]];
        try reflexivity.
      rewrite negative_fixnum_byte by lia. unfold first_kind, kind_of_byte.
      decide_bounds. reflexivity.
    - destruct (Z.leb_spec v 0x7F) as [E0|E0];
        [|destruct (Z.leb_spec v (2 ^ 8 - 1)) as [E1|E1];
          [|destruct (Z.leb_spec v (2 ^ 16 - 1)) as [E2|E2];
            [|destruct (Z.leb_spec v (2 ^ 32 - 1)) as [E3|E3]]]];
        try reflexivity.
      unfold first_kind, kind_of_byte. decide_bounds. reflexivity. }
  split.
  { intros as_integer. unfold pack_double, push_back.
    rewrite push_number_big_endian_spec. reflexivity. }
  split.
  { intros range Hsize. unfold pack_str, pack_bin, push, uint_max. cbv zeta.
    set (size := Z.of_nat (length range)) in *.
    assert (Hnonneg : 0 <= size) by (unfold size; lia).
    rewrite !push_number_big_endian_spec. split.
    - destruct (Z.ltb_spec size 32) as [E0|E0];
        [|destruct (Z.leb_spec size (2 ^ 8 - 1)) as [E1|E1];
          [|destruct (Z.leb_spec size (2 ^ 16 - 1)) as [E2|E2];
            [|destruct (Z.leb_spec size (2 ^ 32 - 1)) as [E3|E3]; [|lia]]]];
        try reflexivity.
      unfold push_back. cbn [fst app].
      rewrite (cast_unsigned_in_range 8 size) by (cbn; lia).
      rewrite (lor_prefix FIX_STR 32) by (auto; lia).
      rewrite to_char_byte by (unfold FIX_STR; lia).
      unfold first_kind, kind_of_byte, FIX_STR. decide_bounds. reflexivity.
    - destruct (Z.leb_spec size (2 ^ 8 - 1)) as [E1|E1];
        [|destruct (Z.leb_spec size (2 ^ 16 - 1)) as [E2|E2];
          [|destruct (Z.leb_spec size (2 ^ 32 - 1)) as [E3|E3]; [|lia]]];
        reflexivity. }
  intros size Hsize. unfold pack_array, pack_map, uint_max.
  rewrite !push_number_big_endian_spec.
  destruct (Z.leb_spec size 15) as [E0|E0];
    [|destruct (Z.leb_spec size (2 ^ 16 - 1)) as [E2|E2];
      [|destruct (Z.leb_spec size (2 ^ 32 - 1)) as [E3|E3]; [|lia]]];
    try (split; reflexivity).
  unfold push_back. cbn [fst app].
  rewrite (cast_unsigned_in_range 8 size) by (cbn; lia).
  rewrite (lor_prefix FIX_ARRAY 16), (lor_prefix FIX_MAP 16) by (auto; lia).
  rewrite !to_char_byte by (unfold FIX_ARRAY, FIX_MAP; lia).
  unfold first_kind, kind_of_byte, FIX_ARRAY, FIX_MAP.
  split; decide_bounds; reflexivity.
Qed.

Lemma first_byte_announces_kind_witness :
  first_kind (pack_integer [] (-5)) = Some KInteger
  /\ first_kind (fst (pack_str [] [0x61])) = Some KStr
  /\ first_kind (fst (pack_map [] 3)) = Some KMap.
Proof.
  destruct first_byte_announces_kind as (_ & _ & Hint & _ & Hrange & Hsize).
  split; [apply Hint; lia|]. split.
  - apply (Hrange [0x61]). cbn. lia.
  - apply (Hsize 3). lia.
Defined.

(** ** Edges *)

(** X9.  [pack_negative] does not check that its argument is negative: for
    a value from [0] on it appends one byte, and that byte is the encoding of
    one of the negative numbers [-32 .. -1]. *)
Theorem pack_negative_of_nonnegative (buffer : Buffer) (value : Z) :
  0 <= value ->
  exists w, -32 <= w < 0 /\ pack_negative buffer value = pack_integer buffer w.
Proof.
  intros Hvalue. unfold pack_negative, push_back, NEGATIVE_FIXNUM.
  destruct (Z.leb_spec (-32) value) as [_|]; [|lia].
  set (b := Z.lor 0xE0 (cast_unsigned 8 (value + 32))).
  assert (Hb : 0xE0 <= b <= 0xFF).
  { apply lor_negative_fixnum. unfold cast_unsigned.
    apply Z.mod_pos_bound. reflexivity. }
  exists (b - 256). split; [lia|].
  rewrite pack_integer_table by lia. unfold integer_encoding.
  destruct (Z.ltb_spec (b - 256) 0) as [_|]; [|lia].
  destruct (Z.leb_spec (-32) (b - 256)) as [_|]; [|lia].
  rewrite negative_fixnum_byte by lia. rewrite to_char_byte by lia.
  f_equal. f_equal. lia.
Qed.

Lemma pack_negative_of_nonnegative_witness :
  exists w, -32 <= w < 0 /\ pack_negative [] 5 = pack_integer [] w.
Proof. apply (pack_negative_of_nonnegative [] 5). lia. Defined.

(** X10.  [pack_double] appends the prefix [0xCB] and the eight bytes of the
    64-bit pattern of the double, most significant first: nine bytes from
    which the pattern reads back. *)
Theorem pack_double_reads_back (buffer : Buffer) (as_integer : Z)
  (rest : list Z) :
  0 <= as_integer < 2 ^ 64 ->
  exists payload,
    pack_double buffer as_integer = buffer ++ 0xCB :: payload
    /\ length payload = 8%nat
    /\ Forall (fun b => 0 <= b < 256) payload
    /\ read_big_endian 8 (payload ++ rest) = Some (as_integer, rest).
Proof.
  intros Hbits. exists (big_endian 8 as_integer).
  split.
  { unfold pack_double, push_back.
    rewrite push_number_big_endian_spec, cast_unsigned_in_range by lia.
    rewrite <- app_assoc. reflexivity. }
  split; [apply big_endian_length|].
  split; [apply big_endian_all_bytes|].
  apply read_big_endian_unsigned. cbn. lia.
Qed.

(** The pattern [0x3FF0000000000000] of the double [1.0]. *)
Lemma pack_double_reads_back_witness :
  exists payload,
    pack_double [] 0x3FF0000000000000 = [] ++ 0xCB :: payload
    /\ length payload = 8%nat
    /\ Forall (fun b => 0 <= b < 256) payload
    /\ read_big_endian 8 (payload ++ []) = Some (0x3FF0000000000000, []).
Proof. apply (pack_double_reads_back [] 0x3FF0000000000000 []). lia. Defined.

End MsgpackReading.

(* ===================================================================== *)
(** * More on the agent URL parser: what a result tells *)
(* ===================================================================== *)

Module HTTPClientResults.
Import Text HTTPClient HTTPClientFacts.

#[local] Open Scope nat_scope.
#[local] Open Scope string_scope.

(** A parsed URL comes from an input cut at its first separator, in one of
    the two ways of the source. *)
Lemma parse_value_inv (input : string) (url : URL) :
  parse input = Value url ->
  exists scheme rest,
    splits_at_first_separator input scheme rest
    /\ In scheme supported
    /\ (((scheme = "unix" \/ scheme = "http+unix" \/ scheme = "https+unix")
         /\ begins_with "/" rest
         /\ url = {| scheme := scheme; authority := rest;
                     path := EmptyString |})
        \/ ((scheme = "http" \/ scheme = "https")
            /\ exists authority path,
                rest = String.append authority path
                /\ ~ contains "/" authority
                /\ (path = EmptyString \/ begins_with "/" path)
                /\ url = {| scheme := scheme; authority := authority;
                            path := path |})).
Proof.
  intros Hparse.
  assert (Hcontains : contains "://" input).
  { destruct (Nat.eq_dec (search input "://") (String.length input)) as [E|E].
    - exfalso. apply search_end_iff in E.
      apply parse_missing_separator in E as [message E].
      rewrite E in Hparse. discriminate Hparse.
    - pose proof (search_le ":" "//" input) as Hle.
      destruct (search_found ":" "//" input) as (before & after & H & _);
        [lia|].
      exists before, after. exact H. }
  destruct (contains_first_separator input Hcontains)
    as (scheme & rest & Hsplit).
  exists scheme, rest. split; [exact Hsplit|].
  destruct (in_dec string_dec scheme supported) as [Hin|Hout].
  2: { exfalso. apply (parse_unsupported_scheme input scheme rest Hsplit)
         in Hout as [message E].
       rewrite E in Hparse. discriminate Hparse. }
  split; [exact Hin|].
  cbn in Hin. destruct Hin as [Hs|[Hs|[Hs|[Hs|[Hs|[]]]]]]; symmetry in Hs.
  - right. split; [left; exact Hs|].
    destruct (parse_http input scheme rest Hsplit (or_introl Hs))
      as (authority & path & Hrest & Hfront & Hback & E).
    exists authority, path. rewrite E in Hparse. injection Hparse as <-.
    repeat split; assumption.
  - right. split; [right; exact Hs|].
    destruct (parse_http input scheme rest Hsplit (or_intror Hs))
      as (authority & path & Hrest & Hfront & Hback & E).
    exists authority, path. rewrite E in Hparse. injection Hparse as <-.
    repeat split; assumption.
  - left. split; [left; exact Hs|].
    destruct (parse_unix input scheme rest Hsplit (or_introl Hs))
      as [Hfail Hvalue].
    assert (Hbegins : begins_with "/" rest).
    { destruct rest as [|c rest'].
      - exfalso. destruct (proj2 Hfail (or_introl eq_refl)) as [message E].
        rewrite E in Hparse. discriminate Hparse.
      - destruct (ascii_dec c "/") as [->|Hc]; [exists rest'; reflexivity|].
        exfalso. destruct (proj2 Hfail) as [message E].
        + right. intros [after H]. injection H as H _. congruence.
        + rewrite E in Hparse. discriminate Hparse. }
    split; [exact Hbegins|]. rewrite (Hvalue Hbegins) in Hparse.
    injection Hparse as <-. reflexivity.
  - left. split; [right; left; exact Hs|].
    destruct (parse_unix input scheme rest Hsplit (or_intror (or_introl Hs)))
      as [Hfail Hvalue].
    assert (Hbegins : begins_with "/" rest).
    { destruct rest as [|c rest'].
      - exfalso. destruct (proj2 Hfail (or_introl eq_refl)) as [message E].
        rewrite E in Hparse. discriminate Hparse.
      - destruct (ascii_dec c "/") as [->|Hc]; [exists rest'; reflexivity|].
        exfalso. destruct (proj2 Hfail) as [message E].
        + right. intros [after H]. injection H as H _. congruence.
        + rewrite E in Hparse. discriminate Hparse. }
    split; [exact Hbegins|]. rewrite (Hvalue Hbegins) in Hparse.
    injection Hparse as <-. reflexivity.
  - left. split; [right; right; exact Hs|].
    destruct (parse_unix input scheme rest Hsplit (or_intror (or_intror Hs)))
      as [Hfail Hvalue].
    assert (Hbegins : begins_with "/" rest).
    { destruct rest as [|c rest'].
      - exfalso. destruct (proj2 Hfail (or_introl eq_refl)) as [message E].
        rewrite E in Hparse. discriminate Hparse.
      - destruct (ascii_dec c "/") as [->|Hc]; [exists rest'; reflexivity|].
        exfalso. destruct (proj2 Hfail) as [message E].
        + right. intros [after H]. injection H as H _. congruence.
        + rewrite E in Hparse. discriminate Hparse. }
    split; [exact Hbegins|]. rewrite (Hvalue Hbegins) in Hparse.
    injection Hparse as <-. reflexivity.
Qed.

(** X11.  A URL that [parse] returns spells the input: the scheme, the
    separator, the authority and the path, put together again, are the input
    char for char; nothing is dropped, added or changed. *)
Theorem parse_value_spells_input (input : string) (url : URL) :
  parse input = Value url ->
  input = String.append (scheme url)
            (String.append "://" (String.append (authority url) (path url))).
Proof.
  intros Hparse.
  destruct (parse_value_inv input url Hparse)
    as (s & rest & [Hinput _] & _ & [(_ & _ & ->)|(_ & a & p & Hrest & _ & _ & ->)]);
    cbn [scheme authority path].
  - rewrite StringFacts.append_nil_r. exact Hinput.
  - rewrite <- Hrest. exact Hinput.
Qed.

Lemma parse_value_spells_input_witness :
  "https://dd-agent:8126/v0.4/traces"
  = String.append "https"
      (String.append "://" (String.append "dd-agent:8126" "/v0.4/traces")).
Proof.
  apply (parse_value_spells_input "https://dd-agent:8126/v0.4/traces"
           {| scheme := "https"; authority := "dd-agent:8126";
              path := "/v0.4/traces" |}).
  reflexivity.
Defined.

(** X12.  A URL that [parse] returns has one of the five supported schemes;
    with a scheme of the unix family its path is empty and its authority
    (the socket path) begins with a slash; with http or https its authority
    holds no slash and its path is empty or begins with a slash. *)
Theorem parse_value_shape (input : string) (url : URL) :
  parse input = Value url ->
  In (scheme url) ["http"; "https"; "unix"; "http+unix"; "https+unix"]
  /\ ((scheme url = "unix" \/ scheme url = "http+unix"
       \/ scheme url = "https+unix") ->
      path url = EmptyString /\ begins_with "/" (authority url))
  /\ ((scheme url = "http" \/ scheme url = "https") ->
      ~ contains "/" (authority url)
      /\ (path url = EmptyString \/ begins_with "/" (path url))).
Proof.
  intros Hparse.
  destruct (parse_value_inv input url Hparse)
    as (s & rest & _ & Hin
        & [(Hs & Hbegins & ->)|(Hs & a & p & _ & Hfront & Hback & ->)]);
    cbn [scheme authority path]; (split; [exact Hin|]).
  - split; [intros _; split; [reflexivity|exact Hbegins]|].
    intros Hhttp. exfalso.
    destruct Hs as [->|[->| ->]], Hhttp as [H|H]; discriminate H.
  - split; [|intros _; split; assumption].
    intros Hunix. exfalso.
    destruct Hs as [->| ->], Hunix as [H|[H|H]]; discriminate H.
Qed.

Lemma parse_value_shape_witness :
  path {| scheme := "unix"; authority := "/var/run/datadog/apm.sock";
          path := EmptyString |} = EmptyString
  /\ begins_with "/" "/var/run/datadog/apm.sock".
Proof.
  destruct (parse_value_shape "unix:///var/run/datadog/apm.sock"
              {| scheme := "unix"; authority := "/var/run/datadog/apm.sock";
                 path := EmptyString |} eq_refl) as (_ & Hunix & _).
  apply Hunix. left. reflexivity.
Defined.

(** X13.  Every error [parse] returns quotes the whole input between double
    quotes in its message; the message for an unsupported scheme also quotes
    the scheme and ends with the list of the supported ones. *)
Theorem parse_error_quotes_input (input : string) (error : Error) :
  parse input = Failure error ->
  contains (String.append dq (String.append input dq)) (message error)
  /\ (code error = URL_UNSUPPORTED_SCHEME ->
      ends_with " http https unix http+unix https+unix" (message error)
      /\ exists scheme rest,
          splits_at_first_separator input scheme rest
          /\ contains (String.append dq (String.append scheme dq))
               (message error)).
Proof.
  unfold parse. cbv zeta.
  destruct (Nat.eqb_spec (search input "://") (String.length input)) as [E|E].
  { intros H. injection H as <-. cbn [message code]. split.
    - exists ("Datadog Agent URL is missing the " +:+ dq +:+ "://" +:+ dq
              +:+ " separator: "), EmptyString.
      unfold append. rewrite !StringFacts.append_assoc. reflexivity.
    - intros H. discriminate H. }
  assert (Hcontains : contains "://" input).
  { pose proof (search_le ":" "//" input) as Hle.
    destruct (search_found ":" "//" input) as (before & after & H & _); [lia|].
    exists before, after. exact H. }
  destruct (contains_first_separator input Hcontains)
    as (scheme & rest & Hsplit).
  destruct (first_separator_offsets _ _ _ Hsplit)
    as (Hsearch & _ & Hscheme & Hrest).
  change (String.length "://") with 3. rewrite Hsearch, Hscheme, Hrest.
  destruct (Nat.eqb (find supported scheme) (List.length supported)).
  { intros H. injection H as <-. cbn [message code]. split.
    - exists ("Unsupported URI scheme " +:+ dq +:+ scheme +:+ dq
              +:+ " in Datadog Agent URL "),
        ". The following are supported: http https unix http+unix https+unix".
      unfold append, supported. cbn [fold_left].
      rewrite !StringFacts.append_assoc. reflexivity.
    - intros _. split.
      + exists ("Unsupported URI scheme " +:+ dq +:+ scheme +:+ dq
                +:+ " in Datadog Agent URL " +:+ dq +:+ input +:+ dq
                +:+ ". The following are supported:").
        unfold append, supported. cbn [fold_left].
        rewrite !StringFacts.append_assoc. reflexivity.
      + exists scheme, rest. split; [exact Hsplit|].
        exists "Unsupported URI scheme ",
          (" in Datadog Agent URL " +:+ dq +:+ input +:+ dq
           +:+ ". The following are supported: http https unix http+unix https+unix").
        unfold append, supported. cbn [fold_left].
        rewrite !StringFacts.append_assoc. reflexivity. }
  destruct (String.eqb scheme "unix" || String.eqb scheme "http+unix"
            || String.eqb scheme "https+unix"); [|intros H; discriminate H].
  destruct (Nat.eqb (String.length rest) 0
            || negb match String.get 0 rest with
                    | Some c => Ascii.eqb c "/"
                    | None => false
                    end); [|intros H; discriminate H].
  intros H. injection H as <-. cbn [message code].
  split; [|intros H; discriminate H].
  exists ("Unix domain socket paths for Datadog Agent must be absolute, i.e. "
          +:+ "must begin with a " +:+ dq +:+ "/" +:+ dq +:+ ". The path "
          +:+ dq +:+ rest +:+ dq
          +:+ " is not absolute. Error occurred for URL: "), EmptyString.
  unfold append. rewrite !StringFacts.append_assoc. reflexivity.
Qed.

Lemma parse_error_quotes_input_witness :
  exists error,
    parse "ftp://x" = Failure error
    /\ contains (String.append dq (String.append "ftp://x" dq)) (message error)
    /\ ends_with " http https unix http+unix https+unix" (message error).
Proof.
  eexists. split; [reflexivity|].
  destruct (parse_error_quotes_input "ftp://x" _ eq_refl) as [Hquote Hlist].
  split; [exact Hquote|]. apply Hlist. reflexivity.
Defined.

End HTTPClientResults.

(* ===================================================================== *)
(** * More on the span handle: tags, names and children in use *)
(* ===================================================================== *)

Module TracingUse.
Import Text Tracing TracingFacts.

#[local] Open Scope string_scope.

Section WithExternals.
Context `{X : Externals}.

(** ** [starts_with] *)

Lemma get_cons (i : nat) (a : ascii) (p : string) :
  String.get (S i) (String a p) = String.get i p.
Proof. reflexivity. Qed.

(** [std::mismatch] along a prefix held in memory from offset [n] on: it
    runs through the prefix if the subject begins with it, and stops inside
    the prefix if not. *)
Lemma mismatch_from_prefix (p s : string) (n : nat) (f : nat -> ascii) :
  (forall i c, String.get i p = Some c -> f (n + i)%nat = c) ->
  (exists t, s = String.append p t
             /\ mismatch_from n s f
                = mismatch_from (n + String.length p) t f)
  \/ (~ begins_with p s
      /\ (mismatch_from n s f < n + String.length p)%nat).
Proof.
  revert s n. induction p as [|a p IH]; intros s n Hf.
  - left. exists s. cbn [String.length]. rewrite Nat.add_0_r.
    split; reflexivity.
  - destruct s as [|b s].
    + right. split; [intros [t H]; discriminate H|]. cbn. lia.
    + cbn [mismatch_from]. pose proof (Hf 0%nat a eq_refl) as H0.
      rewrite Nat.add_0_r in H0. rewrite H0.
      destruct (Ascii.eqb_spec b a) as [->|Hne].
      * destruct (IH s (S n)) as [(t & -> & Hrun)|[Hnot Hlt]].
        { intros i c Hi. rewrite <- (Hf (S i) c Hi). f_equal. lia. }
        -- left. exists t. split; [reflexivity|].
           rewrite Hrun. cbn [String.length]. f_equal. lia.
        -- right. split; [|cbn [String.length]; lia].
           intros [t H]. injection H as H. apply Hnot. exists t. exact H.
      * right. split; [|cbn [String.length]; lia].
        intros [t H]. injection H as H _. congruence.
Qed.

Lemma literal_chars (p : string) (i : nat) (c : ascii) :
  String.get i p = Some c -> chars_from_data (literal p) (0 + i) = c.
Proof. intros H. cbn. rewrite H. reflexivity. Qed.

Lemma get_length_none (p : string) : String.get (String.length p) p = None.
Proof. induction p as [|a p IH]; [reflexivity|exact IH]. Qed.

Lemma literal_terminator (p : string) :
  chars_from_data (literal p) (String.length p) = zero.
Proof. cbn. rewrite get_length_none, Nat.eqb_refl. reflexivity. Qed.

(** A literal without a NUL char inside: [strlen] counts all of it. *)
Lemma strlen_length (p : string) :
  ~ contains NUL p -> strlen p = String.length p.
Proof.
  induction p as [|c p IH]; intros Hfree; [reflexivity|].
  cbn [strlen String.length].
  destruct (Ascii.eqb_spec c zero) as [->|Hc].
  - exfalso. apply Hfree. exists EmptyString, p. reflexivity.
  - f_equal. apply IH. intros (before & after & ->). apply Hfree.
    exists (String c before), after. reflexivity.
Qed.

(** A literal with a NUL char inside: the view ends before the first one. *)
Lemma strlen_until_nul (p rest : string) :
  ~ contains NUL p ->
  strlen (String.append p (String.append NUL rest)) = String.length p.
Proof.
  induction p as [|c p IH]; intros Hfree; [reflexivity|].
  cbn [strlen String.length String.append].
  destruct (Ascii.eqb_spec c zero) as [->|Hc].
  - exfalso. apply Hfree. exists EmptyString, p. reflexivity.
  - f_equal. apply IH. intros (before & after & ->). apply Hfree.
    exists (String c before), after. reflexivity.
Qed.

(** X14.  Let the prefix be a string literal without a NUL char inside (a
    literal with one makes a shorter view: [strlen] stops at the first NUL).
    Then [starts_with] holds exactly for the subjects that begin with the
    literal and do not go on with a NUL char: it is the prefix test but for
    the subjects in which a NUL follows the prefix, which [std::mismatch]
    compares with the NUL that terminates the literal.  A subject shorter
    than the prefix is turned down without a comparison. *)
Theorem starts_with_literal (subject p : string) :
  ~ contains NUL p ->
  size (literal p) = String.length p
  /\ (starts_with subject (literal p) = true
      <-> begins_with p subject
          /\ ~ begins_with (String.append p NUL) subject)
  /\ ((String.length subject < String.length p)%nat ->
      starts_with subject (literal p) = false).
Proof.
  intros Hfree. pose proof (strlen_length p Hfree) as Hlen.
  split; [exact Hlen|].
  assert (Hshort : (String.length subject < String.length p)%nat ->
                   starts_with subject (literal p) = false).
  { intros Hlt. unfold starts_with. cbn [size literal]. rewrite Hlen.
    apply Nat.ltb_lt in Hlt. rewrite Hlt. reflexivity. }
  split; [|exact Hshort].
  unfold starts_with, mismatch. cbn [size snd].
  change (size (literal p)) with (strlen p). rewrite Hlen.
  destruct (mismatch_from_prefix p subject 0 (chars_from_data (literal p))
              (literal_chars p)) as [(t & -> & Hrun)|[Hnot Hlt]].
  - rewrite Hrun, StringFacts.append_length. cbn [Nat.add].
    destruct (Nat.ltb_spec (String.length p + String.length t)
                (String.length p)) as [Hlt|_]; [lia|].
    destruct t as [|c t]; cbn [mismatch_from].
    + rewrite Nat.eqb_refl. split; [intros _|reflexivity].
      split; [exists EmptyString; reflexivity|].
      intros [after H]. apply (f_equal String.length) in H.
      rewrite !StringFacts.append_length in H. cbn in H. lia.
    + rewrite literal_terminator.
      destruct (Ascii.eqb_spec c zero) as [->|Hc].
      * split.
        -- intros H. apply Nat.eqb_eq in H.
           pose proof (mismatch_from_ge (S (String.length p)) t
                         (chars_from_data (literal p))) as Hge.
           lia.
        -- intros [_ H]. exfalso. apply H. exists t.
           rewrite StringFacts.append_assoc. reflexivity.
      * rewrite Nat.eqb_refl. split; [intros _|reflexivity].
        split; [exists (String c t); reflexivity|].
        intros [after H]. rewrite StringFacts.append_assoc in H.
        apply String.app_inj in H. injection H as H _. apply Hc. exact H.
  - destruct (Nat.ltb (String.length subject) (String.length p)).
    + split; [discriminate|]. intros [H _]. contradiction.
    + split; [|intros [H _]; contradiction].
      intros H. apply Nat.eqb_eq in H. cbn [Nat.add] in Hlt. lia.
Qed.

(** With a NUL inside the literal the view is the part before it, and the
    test is the one against that part: a subject that begins with the whole
    literal is turned down. *)
Lemma starts_with_literal_cut (after : string) :
  size (literal (String.append "ab" (String.append NUL "cd"))) = 2%nat
  /\ starts_with "abx" (literal (String.append "ab" (String.append NUL "cd")))
     = true
  /\ starts_with (String.append "ab" (String.append NUL (String.append "cd" after)))
       (literal (String.append "ab" (String.append NUL "cd")))
     = false.
Proof.
  split; [reflexivity|]. split; [reflexivity|].
  unfold starts_with, mismatch, NUL. cbn [String.append].
  change (size _) with 2%nat.
  cbn [String.length Nat.ltb Nat.leb].
  cbn [mismatch_from literal chars_from_data String.get snd].
  change (Ascii.eqb "a" "a") with true. change (Ascii.eqb "b" "b") with true.
  change (Ascii.eqb "000" "000") with true.
  change (Ascii.eqb "c" "c") with true. change (Ascii.eqb "d" "d") with true.
  cbn iota.
  match goal with
  | |- Nat.eqb (mismatch_from ?n ?r ?f) _ = _ =>
      pose proof (mismatch_from_ge n r f) as Hge
  end.
  apply Nat.eqb_neq. lia.
Qed.

(** ** Tags in use *)

Lemma not_reserved (name : string) :
  ~ begins_with "_dd." name -> is_internal_tag name = false.
Proof.
  intros Hnot. destruct (is_internal_tag name) eqn:E; [|reflexivity].
  apply is_internal_tag_iff in E as [E _]. contradiction.
Qed.

(** What [lookup_tag] returns in a world where the span data is [d]. *)
Lemma lookup_tag_returned (self : Span) (w : World) (d : SpanData)
  (name : string) :
  heap w !! data_ self = Some d ->
  lookup_tag self name w
  = Some (if is_internal_tag name then None else tags d !! name, w).
Proof.
  intros Hdata. destruct (is_internal_tag name) eqn:E.
  - apply (tag_operations_reserved self w name EmptyString E).
  - apply (tag_operations_ordinary self w d name EmptyString E Hdata).
Qed.

(** X15.  A tag set under a name that does not begin with [_dd.] is the tag
    [lookup_tag] returns for that name afterwards; the tags under all other
    names read as before, and nothing but the span's own data changes. *)
Theorem set_tag_then_lookup (self : Span) (w : World) (d : SpanData)
  (name value : string) :
  ~ begins_with "_dd." name ->
  heap w !! data_ self = Some d ->
  exists w',
    set_tag self name value w = Some (tt, w')
    /\ lookup_tag self name w' = Some (Some value, w')
    /\ (forall other, other <> name ->
          returned (lookup_tag self other w')
          = returned (lookup_tag self other w))
    /\ (forall p, p <> data_ self -> heap w' !! p = heap w !! p)
    /\ segments w' = segments w /\ env w' = env w.
Proof.
  intros Hname Hdata. apply not_reserved in Hname.
  destruct (tag_operations_ordinary self w d name value Hname Hdata)
    as (Hset & _ & _).
  eexists. split; [exact Hset|].
  set (d' := set_tags (<[name := value]> (tags d)) d).
  assert (Hdata' : heap (with_heap (<[data_ self := d']> (heap w)) w)
                   !! data_ self = Some d') by apply lookup_insert_eq.
  split.
  { rewrite (lookup_tag_returned self _ d' name Hdata'), Hname.
    cbn [tags d' set_tags]. rewrite lookup_insert_eq. reflexivity. }
  split.
  { intros other Hother.
    rewrite (lookup_tag_returned self _ d' other Hdata').
    rewrite (lookup_tag_returned self w d other Hdata). cbn [returned].
    destruct (is_internal_tag other); [reflexivity|].
    cbn [tags d' set_tags]. rewrite lookup_insert_ne by congruence.
    reflexivity. }
  split; [intros p Hp; apply lookup_insert_ne; congruence|].
  split; reflexivity.
Qed.

(** X16.  After [remove_tag] of a name that does not begin with [_dd.],
    [lookup_tag] finds nothing under the name; the tags under all other
    names read as before; and removing a name the tag map does not hold
    leaves the span data as they are. *)
Theorem remove_tag_then_lookup (self : Span) (w : World) (d : SpanData)
  (name : string) :
  ~ begins_with "_dd." name ->
  heap w !! data_ self = Some d ->
  exists w',
    remove_tag self name w = Some (tt, w')
    /\ lookup_tag self name w' = Some (None, w')
    /\ (forall other, other <> name ->
          returned (lookup_tag self other w')
          = returned (lookup_tag self other w))
    /\ (forall p, p <> data_ self -> heap w' !! p = heap w !! p)
    /\ (tags d !! name = None -> heap w' = heap w).
Proof.
  intros Hname Hdata. apply not_reserved in Hname.
  destruct (tag_operations_ordinary self w d name EmptyString Hname Hdata)
    as (_ & Hremove & _).
  eexists. split; [exact Hremove|].
  set (d' := set_tags (delete name (tags d)) d).
  assert (Hdata' : heap (with_heap (<[data_ self := d']> (heap w)) w)
                   !! data_ self = Some d') by apply lookup_insert_eq.
  split.
  { rewrite (lookup_tag_returned self _ d' name Hdata'), Hname.
    cbn [tags d' set_tags]. rewrite lookup_delete_eq. reflexivity. }
  split.
  { intros other Hother.
    rewrite (lookup_tag_returned self _ d' other Hdata').
    rewrite (lookup_tag_returned self w d other Hdata). cbn [returned].
    destruct (is_internal_tag other); [reflexivity|].
    cbn [tags d' set_tags]. rewrite lookup_delete_ne by congruence.
    reflexivity. }
  split; [intros p Hp; apply lookup_insert_ne; congruence|].
  intros Habsent. cbn [heap with_heap]. apply insert_id. rewrite Hdata.
  f_equal. unfold d'. rewrite delete_id by exact Habsent.
  destruct d. reflexivity.
Qed.

Lemma write_data_then (p : nat) (f g : SpanData -> SpanData) (w : World) :
  (write_data p f ;; write_data p g) w = write_data p (fun d => g (f d)) w.
Proof.
  unfold bind, write_data. destruct (heap w !! p) as [d|]; [|reflexivity].
  cbn [heap with_heap]. rewrite lookup_insert_eq.
  unfold with_heap. cbn [heap segments env]. rewrite insert_insert_eq.
  reflexivity.
Qed.

Lemma write_data_ext (p : nat) (f g : SpanData -> SpanData) (w : World) :
  (forall d, f d = g d) -> write_data p f w = write_data p g w.
Proof.
  intros Hfg. unfold write_data. destruct (heap w !! p) as [d|]; [|reflexivity].
  rewrite Hfg. reflexivity.
Qed.

Lemma bind_ret_l {A : Type} (m : M A) (w : World) :
  (ret tt ;; m) w = m w.
Proof. reflexivity. Qed.

Lemma bind_ret_r (m : M unit) (w : World) : (m ;; ret tt) w = m w.
Proof.
  unfold bind, ret. destruct (m w) as [[[] w']|]; reflexivity.
Qed.

(** X17.  Of two [set_tag] calls on one name the later one decides (the
    earlier one might as well not have happened), [set_tag] calls on
    different names can be swapped, and a [remove_tag] undoes an earlier
    [set_tag] on its name; this holds for every name and every world. *)
Theorem set_tag_composes (self : Span) (w : World)
  (name value1 value2 other : string) :
  (set_tag self name value1 ;; set_tag self name value2) w
  = set_tag self name value2 w
  /\ (set_tag self name value1 ;; remove_tag self name) w
     = remove_tag self name w
  /\ (name <> other ->
      (set_tag self name value1 ;; set_tag self other value2) w
      = (set_tag self other value2 ;; set_tag self name value1) w).
Proof.
  unfold set_tag, remove_tag.
  destruct (is_internal_tag name), (is_internal_tag other); cbn [negb];
    rewrite ?bind_ret_l, ?bind_ret_r;
    (split; [try reflexivity|split; [try reflexivity|intros Hne; try reflexivity]]).
  - rewrite write_data_then. apply write_data_ext. intros d.
    unfold set_tags. cbn [tags]. rewrite insert_insert_eq. destruct d.
    reflexivity.
  - rewrite write_data_then. apply write_data_ext. intros d.
    unfold set_tags. cbn [tags]. rewrite delete_insert_eq. destruct d.
    reflexivity.
  - rewrite write_data_then. apply write_data_ext. intros d.
    unfold set_tags. cbn [tags]. rewrite insert_insert_eq. destruct d.
    reflexivity.
  - rewrite write_data_then. apply write_data_ext. intros d.
    unfold set_tags. cbn [tags]. rewrite delete_insert_eq. destruct d.
    reflexivity.
  - rewrite !write_data_then. apply write_data_ext. intros d.
    unfold set_tags. cbn. rewrite insert_insert_ne by congruence.
    reflexivity.
Qed.

(** X18.  [lookup_tag] only reads: the world it leaves is the world it was
    called in.  A value it returns is the one the span's tag map holds under
    the name, and the name is one the reserved-name test lets through; for a
    name the test takes for reserved it returns nothing without looking at
    the span data. *)
Theorem lookup_tag_reads_only (self : Span) (w : World) (name : string) :
  (forall r w', lookup_tag self name w = Some (r, w') ->
      w' = w
      /\ forall value, r = Some value ->
           is_internal_tag name = false
           /\ exists d, heap w !! data_ self = Some d
                        /\ tags d !! name = Some value)
  /\ (begins_with "_dd." name ->
      ~ begins_with (String.append "_dd." NUL) name ->
      lookup_tag self name w = Some (None, w)).
Proof.
  split.
  - intros r w'. unfold lookup_tag.
    destruct (is_internal_tag name) eqn:Hname.
    + intros H. injection H as <- <-. split; [reflexivity|]. discriminate.
    + unfold bind, read_data, ret.
      destruct (heap w !! data_ self) as [d|] eqn:Hdata; [|discriminate].
      destruct (tags d !! name) as [v|] eqn:Htag; intros H;
        injection H as <- <-; (split; [reflexivity|]).
      * intros value Hv. injection Hv as <-. split; [reflexivity|].
        exists d. split; [reflexivity|exact Htag].
      * discriminate.
  - intros Hbegins Hnul.
    apply (tag_operations_reserved self w name EmptyString).
    apply is_internal_tag_iff. split; assumption.
Qed.

(** X19.  The error message is an ordinary tag for the user: after
    [set_error(message)], [lookup_tag] returns the message under
    [error.msg]; after [set_error(false)] it finds nothing there; and
    [set_error(true)] leaves what it finds there as it was. *)
Theorem set_error_then_lookup (self : Span) (w : World) (d : SpanData)
  (message : string) :
  heap w !! data_ self = Some d ->
  (exists w',
      set_error_message self message w = Some (tt, w')
      /\ lookup_tag self "error.msg" w' = Some (Some message, w'))
  /\ (exists w',
         set_error self false w = Some (tt, w')
         /\ lookup_tag self "error.msg" w' = Some (None, w'))
  /\ (exists w',
         set_error self true w = Some (tt, w')
         /\ returned (lookup_tag self "error.msg" w')
            = returned (lookup_tag self "error.msg" w)).
Proof.
  intros Hdata.
  assert (Hname : is_internal_tag "error.msg" = false) by reflexivity.
  split; [|split].
  - eexists. split.
    { unfold set_error_message. apply (write_data_twice _ _ _ d w Hdata). }
    erewrite lookup_tag_returned by apply lookup_insert_eq.
    rewrite Hname. cbn [tags set_tags]. rewrite lookup_insert_eq.
    reflexivity.
  - eexists. split.
    { unfold set_error. cbn [negb].
      apply (write_data_twice _ _ _ d w Hdata). }
    erewrite lookup_tag_returned by apply lookup_insert_eq.
    rewrite Hname. cbn [tags set_tags]. rewrite lookup_delete_eq.
    reflexivity.
  - eexists. split.
    { unfold set_error. cbn [negb]. rewrite bind_ret_r.
      apply (write_data_run _ _ d w Hdata). }
    erewrite lookup_tag_returned by apply lookup_insert_eq.
    rewrite (lookup_tag_returned self w d _ Hdata). reflexivity.
Qed.

(** ** What the tag and error operations leave alone *)

Lemma same_but_refl (d : SpanData) : same_but_tags_and_error d d.
Proof. repeat split. Qed.

(** A write that keeps everything but tags and error flag. *)
Lemma write_data_frame (p : nat) (f : SpanData -> SpanData) (w w' : World) :
  (forall d, same_but_tags_and_error d (f d)) ->
  write_data p f w = Some (tt, w') ->
  segments w' = segments w /\ env w' = env w
  /\ (forall q, q <> p -> heap w' !! q = heap w !! q)
  /\ exists d d', heap w !! p = Some d /\ heap w' !! p = Some d'
                  /\ same_but_tags_and_error d d'.
Proof.
  intros Hf. unfold write_data.
  destruct (heap w !! p) as [d|] eqn:Hdata; [|discriminate].
  intros H. injection H as <-. cbn [heap segments env with_heap].
  split; [reflexivity|]. split; [reflexivity|].
  split; [intros q Hq; apply lookup_insert_ne; congruence|].
  exists d, (f d). split; [reflexivity|].
  split; [apply lookup_insert_eq|apply Hf].
Qed.

(** X20.  [set_tag], [remove_tag], [set_error(bool)] and
    [set_error(message)] change nothing but the tags and the error flag of
    the handle's own span data: the ids, names, start and duration of the
    span, every other span's data, the segments and the state behind clock
    and id generator are as before. *)
Theorem tag_and_error_operations_frame (self : Span) (w w' : World)
  (d : SpanData) (name value : string) (is_error : bool) :
  heap w !! data_ self = Some d ->
  set_tag self name value w = Some (tt, w')
  \/ remove_tag self name w = Some (tt, w')
  \/ set_error self is_error w = Some (tt, w')
  \/ set_error_message self value w = Some (tt, w') ->
  segments w' = segments w /\ env w' = env w
  /\ (forall q, q <> data_ self -> heap w' !! q = heap w !! q)
  /\ exists d', heap w' !! data_ self = Some d'
                /\ same_but_tags_and_error d d'
                /\ returned (Span_id self w') = Some (span_id d)
                /\ returned (Span_trace_id self w') = Some (trace_id d).
Proof.
  intros Hdata Hop.
  assert (Hframe :
            segments w' = segments w /\ env w' = env w
            /\ (forall q, q <> data_ self -> heap w' !! q = heap w !! q)
            /\ exists d0 d', heap w !! data_ self = Some d0
                             /\ heap w' !! data_ self = Some d'
                             /\ same_but_tags_and_error d0 d').
  { destruct Hop as [Hop|[Hop|[Hop|Hop]]].
    - unfold set_tag in Hop. destruct (is_internal_tag name); cbn [negb] in Hop.
      + injection Hop as <-. repeat split. exists d, d.
        repeat split; assumption.
      + eapply write_data_frame; [|exact Hop]. intros d0. repeat split.
    - unfold remove_tag in Hop.
      destruct (is_internal_tag name); cbn [negb] in Hop.
      + injection Hop as <-. repeat split. exists d, d.
        repeat split; assumption.
      + eapply write_data_frame; [|exact Hop]. intros d0. repeat split.
    - unfold set_error in Hop. destruct is_error; cbn [negb] in Hop.
      + rewrite bind_ret_r in Hop.
        eapply write_data_frame; [|exact Hop]. intros d0. repeat split.
      + rewrite write_data_then in Hop.
        eapply write_data_frame; [|exact Hop]. intros d0. repeat split.
    - unfold set_error_message in Hop. rewrite write_data_then in Hop.
      eapply write_data_frame; [|exact Hop]. intros d0. repeat split. }
  destruct Hframe as (Hsegments & Henv & Hothers & d0 & d' & Hd0 & Hd' & Hsame).
  rewrite Hdata in Hd0. injection Hd0 as <-.
  split; [exact Hsegments|]. split; [exact Henv|]. split; [exact Hothers|].
  exists d'. split; [exact Hd'|]. split; [exact Hsame|].
  unfold Span_id, Span_trace_id, bind, read_data, ret. rewrite Hd'.
  cbn [returned].
  destruct Hsame as (_ & _ & _ & _ & _ & Htrace & Hspan & _).
  rewrite Htrace, Hspan. split; reflexivity.
Qed.

(** ** Names *)

(** X23.  [set_service_name], [set_service_type], [set_resource_name] and
    [set_operation_name] each assign one field of the span data and nothing
    else: on a live span, calls on different fields can be swapped, the
    later of two calls on one field decides, and the tags and ids are as
    before. *)
Theorem name_setters_compose (self : Span) (w : World) (d : SpanData)
  (a b : string) :
  heap w !! data_ self = Some d ->
  (set_service_name self a ;; set_operation_name self b) w
  = (set_operation_name self b ;; set_service_name self a) w
  /\ (set_service_type self a ;; set_resource_name self b) w
     = (set_resource_name self b ;; set_service_type self a) w
  /\ (set_service_name self a ;; set_resource_name self b) w
     = (set_resource_name self b ;; set_service_name self a) w
  /\ (set_operation_name self a ;; set_operation_name self b) w
     = set_operation_name self b w
  /\ (set_service_name self a ;; set_service_name self b) w
     = set_service_name self b w
  /\ exists w' d',
      (set_service_name self a ;; set_service_type self b ;;
       set_resource_name self a ;; set_operation_name self b) w
      = Some (tt, w')
      /\ heap w' !! data_ self = Some d'
      /\ service d' = a /\ service_type d' = b
      /\ resource d' = a /\ name d' = b
      /\ tags d' = tags d /\ error d' = error d
      /\ trace_id d' = trace_id d /\ span_id d' = span_id d
      /\ parent_id d' = parent_id d /\ start d' = start d
      /\ duration d' = duration d.
Proof.
  intros Hdata.
  unfold set_service_name, set_service_type, set_resource_name,
    set_operation_name.
  repeat (split; [rewrite ?write_data_then; apply write_data_ext;
                  intros d0; reflexivity|]).
  eexists _, _. split.
  { unfold bind.
    rewrite (write_data_run _ _ d w Hdata).
    rewrite (write_data_run _ _ (set_service a d)) by apply lookup_insert_eq.
    rewrite (write_data_run _ _ (set_service_type_field b (set_service a d)))
      by apply lookup_insert_eq.
    rewrite (write_data_run _ _
               (set_resource a (set_service_type_field b (set_service a d))))
      by apply lookup_insert_eq.
    reflexivity. }
  split; [apply lookup_insert_eq|]. repeat split.
Qed.

(** ** Children in use *)

Ltac run_world_step :=
  cbn [heap segments env with_heap with_env with_segments defaults_ fst snd];
  first [ rewrite lookup_insert_eq
        | rewrite lookup_insert_ne by congruence
        | match goal with H : _ !! _ = Some _ |- _ => rewrite H end
        | match goal with H : _ = (_, _) |- _ => rewrite H end ].

(** The handle and the world [create_child] returns. *)
Lemma create_child_run (self : Span) (config : SpanConfig) (w : World)
  (segment : nat) (parent : SpanData) (seg : TraceSegment) :
  trace_segment_ self = Some segment ->
  heap w !! data_ self = Some parent ->
  segments w !! segment = Some seg ->
  let configured :=
    apply_config (defaults_ seg) config (clock_ self) SpanData_new (env w) in
  let id := generate_span_id_ self (snd configured) in
  let p := fresh (dom (heap w)) in
  create_child self config w
  = Some ({| trace_segment_ := Some segment; data_ := p;
             generate_span_id_ := generate_span_id_ self;
             clock_ := clock_ self; end_time_ := None |},
          {| heap :=
               <[p := set_span_id (fst id)
                        (set_parent_id (span_id parent)
                           (set_trace_id (trace_id parent) (fst configured)))]>
                 (heap w);
             segments :=
               <[segment := {| defaults_ := defaults_ seg;
                               spans_ := (spans_ seg ++ [p])%list;
                               num_finished_spans_ := num_finished_spans_ seg |}]>
                 (segments w);
             env := snd id |}).
Proof.
  intros Hsegment Hparent Hseg. cbv zeta.
  set (p := fresh (dom (heap w))).
  assert (Hfresh : heap w !! p = None) by (apply not_elem_of_dom, is_fresh).
  assert (Hne : p <> data_ self) by (intros E; rewrite E in Hfresh; congruence).
  destruct (apply_config (defaults_ seg) config (clock_ self) SpanData_new
              (env w)) as [configured e1] eqn:Hconfigured.
  destruct (generate_span_id_ self e1) as [id e2] eqn:Hid.
  cbn [fst snd]. rewrite Hid. cbn [fst snd].
  unfold create_child, bind, make_unique, trace_segment_arrow, defaults,
    read_segment, read_data, write_data, call, register_span,
    write_segment, ret, bind.
  fold p. rewrite Hsegment. repeat run_world_step.
  rewrite !insert_insert_eq. reflexivity.
Qed.

(** X21.  Through the handles: after [create_child], [trace_id()] of the
    child is [trace_id()] of the parent and [id()] of the child is the id
    the generator returned, while [id()] and [trace_id()] of the parent
    answer as before; the data of every span that existed are untouched,
    other segments are untouched, and the number of finished spans of the
    segment is unchanged. *)
Theorem child_through_handles (self : Span) (config : SpanConfig) (w : World)
  (segment : nat) (parent : SpanData) (seg : TraceSegment) :
  trace_segment_ self = Some segment ->
  heap w !! data_ self = Some parent ->
  segments w !! segment = Some seg ->
  exists (child : Span) (w' : World) (seg' : TraceSegment),
    create_child self config w = Some (child, w')
    /\ Span_trace_id child w' = Some (trace_id parent, w')
    /\ Span_trace_id self w' = Some (trace_id parent, w')
    /\ Span_id child w'
       = Some (fst (generate_span_id_ self
                      (snd (apply_config (defaults_ seg) config (clock_ self)
                              SpanData_new (env w)))), w')
    /\ Span_id self w' = Some (span_id parent, w')
    /\ (forall p d, heap w !! p = Some d -> heap w' !! p = Some d)
    /\ (forall s, s <> segment -> segments w' !! s = segments w !! s)
    /\ segments w' !! segment = Some seg'
    /\ num_finished_spans_ seg' = num_finished_spans_ seg
    /\ length (spans_ seg') = S (length (spans_ seg)).
Proof.
  intros Hsegment Hparent Hseg.
  pose proof (create_child_run self config w segment parent seg
                Hsegment Hparent Hseg) as Hrun. cbv zeta in Hrun.
  set (p := fresh (dom (heap w))) in *.
  assert (Hfresh : heap w !! p = None) by (apply not_elem_of_dom, is_fresh).
  eexists _, _, _. split; [exact Hrun|].
  unfold Span_trace_id, Span_id, bind, read_data, ret.
  cbn [data_ heap segments].
  rewrite lookup_insert_eq.
  rewrite (lookup_insert_ne _ p (data_ self))
    by (intros E; rewrite E in Hfresh; congruence).
  rewrite Hparent.
  split; [reflexivity|]. split; [reflexivity|].
  split; [reflexivity|]. split; [reflexivity|].
  split.
  { intros q d Hq. rewrite lookup_insert_ne; [exact Hq|].
    intros E. rewrite E in Hfresh. congruence. }
  split; [intros s Hs; apply lookup_insert_ne; congruence|].
  split; [apply lookup_insert_eq|].
  split; [reflexivity|]. cbn [spans_]. rewrite length_app. cbn. lia.
Qed.

(** X22.  A child of a child: both new span data carry the trace id of the
    first parent, the grandchild has the child's span id as parent id, the
    two are registered with the same segment, one after the other, at two
    different addresses, and the first parent's data are as they were. *)
Theorem grandchild_shares_trace (self : Span) (config1 config2 : SpanConfig)
  (w : World) (segment : nat) (parent : SpanData) (seg : TraceSegment) :
  trace_segment_ self = Some segment ->
  heap w !! data_ self = Some parent ->
  segments w !! segment = Some seg ->
  exists (child grandchild : Span) (w1 w2 : World) (d1 d2 : SpanData)
         (seg2 : TraceSegment),
    create_child self config1 w = Some (child, w1)
    /\ create_child child config2 w1 = Some (grandchild, w2)
    /\ heap w2 !! data_ child = Some d1
    /\ heap w2 !! data_ grandchild = Some d2
    /\ data_ child <> data_ grandchild
    /\ trace_id d1 = trace_id parent /\ trace_id d2 = trace_id parent
    /\ parent_id d1 = span_id parent /\ parent_id d2 = span_id d1
    /\ heap w2 !! data_ self = Some parent
    /\ segments w2 !! segment = Some seg2
    /\ spans_ seg2 = (spans_ seg ++ [data_ child; data_ grandchild])%list.
Proof.
  intros Hsegment Hparent Hseg.
  pose proof (create_child_run self config1 w segment parent seg
                Hsegment Hparent Hseg) as Hrun1. cbv zeta in Hrun1.
  set (p1 := fresh (dom (heap w))) in *.
  assert (Hfresh1 : heap w !! p1 = None) by (apply not_elem_of_dom, is_fresh).
  match type of Hrun1 with
  | _ = Some (?c, ?world) => set (child := c) in *; set (w1 := world) in *
  end.
  assert (Hdata1 : heap w1 !! data_ child = Some
            (set_span_id
               (fst (generate_span_id_ self
                       (snd (apply_config (defaults_ seg) config1
                               (clock_ self) SpanData_new (env w)))))
               (set_parent_id (span_id parent)
                  (set_trace_id (trace_id parent)
                     (fst (apply_config (defaults_ seg) config1
                             (clock_ self) SpanData_new (env w)))))))
    by apply lookup_insert_eq.
  assert (Hseg1 : segments w1 !! segment = Some
            {| defaults_ := defaults_ seg;
               spans_ := (spans_ seg ++ [p1])%list;
               num_finished_spans_ := num_finished_spans_ seg |})
    by apply lookup_insert_eq.
  pose proof (create_child_run child config2 w1 segment _ _
                eq_refl Hdata1 Hseg1) as Hrun2. cbv zeta in Hrun2.
  set (p2 := fresh (dom (heap w1))) in *.
  assert (Hfresh2 : heap w1 !! p2 = None) by (apply not_elem_of_dom, is_fresh).
  assert (Hp12 : p1 <> p2).
  { intros E. rewrite <- E in Hfresh2. change p1 with (data_ child) in Hfresh2.
    rewrite Hdata1 in Hfresh2. discriminate Hfresh2. }
  assert (Hself2 : p2 <> data_ self).
  { intros E. rewrite E in Hfresh2. unfold w1 in Hfresh2.
    cbn [heap] in Hfresh2. rewrite lookup_insert_ne in Hfresh2.
    - congruence.
    - intros E1. rewrite E1 in Hfresh1. congruence. }
  eexists _, _, _, _, _, _, _. split; [exact Hrun1|]. split; [exact Hrun2|].
  cbn [data_ heap segments].
  split; [rewrite lookup_insert_ne by (exact (not_eq_sym Hp12)); exact Hdata1|].
  split; [apply lookup_insert_eq|]. split; [exact Hp12|].
  split; [reflexivity|]. split; [reflexivity|].
  split; [reflexivity|]. split; [reflexivity|].
  split.
  { rewrite lookup_insert_ne by exact Hself2. unfold w1. cbn [heap].
    rewrite lookup_insert_ne; [exact Hparent|].
    intros E. rewrite E in Hfresh1. congruence. }
  split; [apply lookup_insert_eq|].
  cbn [spans_]. rewrite <- app_assoc. reflexivity.
Qed.

End WithExternals.

(** A tag of the root span. *)
Lemma set_tag_then_lookup_witness :
  exists w',
    set_tag root_span "http.status_code" "200" root_world = Some (tt, w')
    /\ lookup_tag root_span "http.status_code" w' = Some (Some "200", w').
Proof.
  destruct (set_tag_then_lookup (X := counting_externals)
              root_span root_world root_data "http.status_code" "200")
    as (w' & Hset & Hlookup & _).
  - intros [after H]. discriminate H.
  - reflexivity.
  - exists w'. split; [exact Hset|exact Hlookup].
Defined.

(** The root span has the tag [error.msg]; it has none named [missing]. *)
Lemma remove_tag_then_lookup_witness :
  (exists w',
      remove_tag root_span "error.msg" root_world = Some (tt, w')
      /\ lookup_tag root_span "error.msg" w' = Some (None, w'))
  /\ (exists w',
         remove_tag root_span "missing" root_world = Some (tt, w')
         /\ heap w' = heap root_world).
Proof.
  split.
  - destruct (remove_tag_then_lookup (X := counting_externals)
                root_span root_world root_data "error.msg")
      as (w' & Hremove & Hlookup & _).
    + intros [after H]. discriminate H.
    + reflexivity.
    + exists w'. split; [exact Hremove|exact Hlookup].
  - destruct (remove_tag_then_lookup (X := counting_externals)
                root_span root_world root_data "missing")
      as (w' & Hremove & _ & _ & _ & Hsame).
    + intros [after H]. discriminate H.
    + reflexivity.
    + exists w'. split; [exact Hremove|]. apply Hsame. reflexivity.
Defined.

(** The root span had the error message [boom]. *)
Lemma set_error_then_lookup_witness :
  exists w',
    set_error_message root_span "timeout" root_world = Some (tt, w')
    /\ lookup_tag root_span "error.msg" w' = Some (Some "timeout", w').
Proof.
  destruct (set_error_then_lookup (X := counting_externals)
              root_span root_world root_data "timeout" eq_refl)
    as ((w' & Hset & Hlookup) & _).
  exists w'. split; [exact Hset|exact Hlookup].
Defined.

(** Clearing the error of the root span. *)
Lemma tag_and_error_operations_frame_witness :
  exists w' d',
    set_error root_span false root_world = Some (tt, w')
    /\ heap w' !! 0%nat = Some d'
    /\ same_but_tags_and_error root_data d'
    /\ returned (Span_id root_span w') = Some 7.
Proof.
  destruct (set_error root_span false root_world) as [[[] w']|] eqn:Hrun;
    [|vm_compute in Hrun; discriminate Hrun].
  destruct (tag_and_error_operations_frame (X := counting_externals)
              root_span root_world w' root_data "unused" "unused" false
              eq_refl (or_intror (or_intror (or_introl Hrun))))
    as (_ & _ & _ & d' & Hd' & Hsame & Hid & _).
  exists w', d'. split; [reflexivity|]. split; [exact Hd'|].
  split; [exact Hsame|exact Hid].
Defined.

(** Naming the root span. *)
Lemma name_setters_compose_witness :
  (set_operation_name root_span "GET" ;; set_operation_name root_span "POST")
    root_world
  = set_operation_name root_span "POST" root_world.
Proof.
  destruct (name_setters_compose (X := counting_externals)
              root_span root_world root_data "GET" "POST" eq_refl)
    as (_ & _ & _ & Hlast & _).
  exact Hlast.
Defined.

(** A child of the root span, seen through the handles. *)
Lemma child_through_handles_witness :
  exists child w',
    create_child root_span "db.query" root_world = Some (child, w')
    /\ Span_trace_id child w' = Some (7, w')
    /\ Span_id child w' = Some (1001, w')
    /\ Span_id root_span w' = Some (7, w').
Proof.
  destruct (child_through_handles (X := counting_externals)
              root_span "db.query" root_world 0%nat root_data root_segment
              eq_refl eq_refl eq_refl)
    as (child & w' & _ & Hrun & Htrace & _ & Hid & Hparent & _).
  exists child, w'. split; [exact Hrun|]. split; [exact Htrace|].
  split; [exact Hid|exact Hparent].
Defined.

(** A child and a grandchild of the root span. *)
Lemma grandchild_shares_trace_witness :
  exists child grandchild w1 w2 d1 d2,
    create_child root_span "db.query" root_world = Some (child, w1)
    /\ create_child child "db.fetch" w1 = Some (grandchild, w2)
    /\ heap w2 !! data_ child = Some d1
    /\ heap w2 !! data_ grandchild = Some d2
    /\ trace_id d1 = 7 /\ trace_id d2 = 7 /\ parent_id d2 = span_id d1.
Proof.
  destruct (grandchild_shares_trace (X := counting_externals)
              root_span "db.query" "db.fetch" root_world 0%nat root_data
              root_segment eq_refl eq_refl eq_refl)
    as (child & grandchild & w1 & w2 & d1 & d2 & _ & Hrun1 & Hrun2 & Hd1 & Hd2
        & _ & Htrace1 & Htrace2 & _ & Hparent & _).
  exists child, grandchild, w1, w2, d1, d2.
  split; [exact Hrun1|]. split; [exact Hrun2|]. split; [exact Hd1|].
  split; [exact Hd2|]. split; [exact Htrace1|].
  split; [exact Htrace2|exact Hparent].
Defined.

Lemma literal_without_nul : ~ contains NUL "_dd.".
Proof.
  intros (before & after & H).
  destruct before as [|a [|b [|c [|d [|e before]]]]]; discriminate H.
Defined.

(** A subject shorter than the prefix, one that goes on after it, and one
    in which a NUL follows it. *)
Lemma starts_with_literal_witness :
  size (literal (X := counting_externals) "_dd.") = 4%nat
  /\ starts_with "_d" (literal (X := counting_externals) "_dd.") = false
  /\ starts_with "_dd.p.dm" (literal (X := counting_externals) "_dd.") = true
  /\ starts_with (String.append "_dd." NUL)
       (literal (X := counting_externals) "_dd.") = false.
Proof.
  split.
  { apply (starts_with_literal (X := counting_externals) "_d" "_dd."
             literal_without_nul). }
  split.
  { apply (starts_with_literal (X := counting_externals) "_d" "_dd."
             literal_without_nul).
    cbn. lia. }
  split.
  { apply (proj1 (proj2 (starts_with_literal (X := counting_externals)
                           "_dd.p.dm" "_dd." literal_without_nul))).
    split; [exists "p.dm"; reflexivity|].
    intros [after H]. discriminate H. }
  destruct (starts_with (String.append "_dd." NUL)
              (literal (X := counting_externals) "_dd.")) eqn:E;
    [|reflexivity].
  apply (proj1 (proj2 (starts_with_literal (X := counting_externals)
                         (String.append "_dd." NUL) "_dd."
                         literal_without_nul))) in E.
  destruct E as [_ E]. exfalso. apply E. exists EmptyString. reflexivity.
Defined.

(** Two tags of the root span, set in either order. *)
Lemma set_tag_composes_witness :
  (set_tag root_span "a" "1" ;; set_tag root_span "b" "2") root_world
  = (set_tag root_span "b" "2" ;; set_tag root_span "a" "1") root_world.
Proof.
  destruct (set_tag_composes (X := counting_externals)
              root_span root_world "a" "1" "2" "b") as (_ & _ & Hswap).
  apply Hswap. discriminate.
Defined.

(** A reserved name looked up on the root span. *)
Lemma lookup_tag_reads_only_witness :
  lookup_tag root_span "_dd.p.tid" root_world = Some (None, root_world).
Proof.
  destruct (lookup_tag_reads_only (X := counting_externals)
              root_span root_world "_dd.p.tid") as [_ Hreserved].
  apply Hreserved.
  - exists "p.tid". reflexivity.
  - intros [after H]. discriminate H.
Defined.

End TracingUse.
